(** * Kapsule: option schema, profile sync, mount planning, operations,
    NVIDIA mount hook and the client-side schema parser.

    The daemon's Python modules (container_options.py, container_service.py,
    operations.py) are modelled from the specification; the mount hook
    (data/nvidia-container-hook.sh), the KCM create page (part_006), the
    schema parser (types.cpp) and [KCMKapsule::refresh] are embedded from
    their source. *)

From Stdlib Require Import Ascii String List Bool Arith ZArith Lia DecimalString.
Import ListNotations.
Open Scope string_scope.
#[local] Set Warnings "-register-all".

(* ------------------------------------------------------------------------- *)
(** ** Option schema and validator (container_options.py) *)

Module Options.

(** A D-Bus variant as it arrives in the [a{sv}] options dictionary. *)
Inductive variant :=
| VBool (b : bool)
| VStr (s : string)
| VArr (l : list variant).

(** Declared option types of the schema. *)
Inductive otype := TBoolean | TString | TArray.

(** Normalized (typed) option values. *)
Inductive value :=
| Bool (b : bool)
| Str (s : string)
| StrList (l : list string).

Definition value_eq_dec (a b : value) : {a = b} + {a <> b}.
Proof. decide equality; first [apply bool_dec | apply string_dec | apply list_eq_dec, string_dec]. Defined.

Definition value_eqb (a b : value) : bool := if value_eq_dec a b then true else false.

Record option_desc := {
  key : string;
  otype_of : otype;
  default : value;
  requires : list (string * value);
  item_format : option string
}.

Record section := {
  sec_id : string;
  sec_title : string;
  sec_options : list option_desc
}.

Record schema := {
  version : nat;
  sections : list section
}.

Definition all_options (sch : schema) : list option_desc :=
  concat (map sec_options (sections sch)).

Inductive validation_error :=
| UnknownOption (k : string)
| TypeMismatch (k : string)
| DependencyViolation (k dep : string).

Definition raw_map := list (string * variant).
(** The normalized [ContainerOptions]: one typed value per schema key, in
    schema order. *)
Definition container_options := list (string * value).

Fixpoint assoc {A : Type} (k : string) (m : list (string * A)) : option A :=
  match m with
  | [] => None
  | (k', v) :: rest => if String.eqb k' k then Some v else assoc k rest
  end.

Fixpoint find_option (k : string) (os : list option_desc) : option option_desc :=
  match os with
  | [] => None
  | o :: rest => if String.eqb (key o) k then Some o else find_option k rest
  end.

Definition in_schema (sch : schema) (k : string) : bool :=
  match find_option k (all_options sch) with Some _ => true | None => false end.

(** Step (1): the first key of the raw map that the schema does not know. *)
Fixpoint find_unknown (sch : schema) (raw : raw_map) : option string :=
  match raw with
  | [] => None
  | (k, _) :: rest => if in_schema sch k then find_unknown sch rest else Some k
  end.

Fixpoint all_strings (l : list variant) : option (list string) :=
  match l with
  | [] => Some []
  | VStr s :: rest =>
      match all_strings rest with Some r => Some (s :: r) | None => None end
  | _ :: _ => None
  end.

(** Step (3): type-check and coerce one supplied value. *)
Definition coerce (t : otype) (v : variant) : option value :=
  match t, v with
  | TBoolean, VBool b => Some (Bool b)
  | TString, VStr s => Some (Str s)
  | TArray, VArr l =>
      match all_strings l with Some r => Some (StrList r) | None => None end
  | _, _ => None
  end.

(** The value an option takes: caller-set (coerced) or the schema default. *)
Definition resolve (o : option_desc) (raw : raw_map) : option value :=
  match assoc (key o) raw with
  | Some v => coerce (otype_of o) v
  | None => Some (default o)
  end.

(** Steps (2) and (3): fill defaults and type-check, in schema order. *)
Fixpoint normalize (os : list option_desc) (raw : raw_map)
  : validation_error + container_options :=
  match os with
  | [] => inr []
  | o :: rest =>
      match resolve o raw with
      | None => inl (TypeMismatch (key o))
      | Some v =>
          match normalize rest raw with
          | inl e => inl e
          | inr m => inr ((key o, v) :: m)
          end
      end
  end.


(** Step (4): the effective value of every key named in a dependency map. *)
Fixpoint check_requires (k : string) (reqs : list (string * value))
    (opts : container_options) : option validation_error :=
  match reqs with
  | [] => None
  | (k', req) :: rest =>
      match assoc k' opts with
      | Some v => if value_eqb v req then check_requires k rest opts
                  else Some (DependencyViolation k k')
      | None => Some (DependencyViolation k k')
      end
  end.

Fixpoint check_deps (os : list option_desc) (opts : container_options)
  : option validation_error :=
  match os with
  | [] => None
  | o :: rest =>
      match check_requires (key o) (requires o) opts with
      | Some e => Some e
      | None => check_deps rest opts
      end
  end.

(** Modelled from the spec: [parse_options] of container_options.py (§4.2,
    steps 1-5), which is not part of the sources. *)
Definition validate (sch : schema) (raw : raw_map)
  : validation_error + container_options :=
  match find_unknown sch raw with
  | Some k => inl (UnknownOption k)
  | None =>
      match normalize (all_options sch) raw with
      | inl e => inl e
      | inr opts =>
          match check_deps (all_options sch) opts with
          | Some e => inl e
          | None => inr opts
          end
      end
  end.

Definition bool_opt (k : string) (d : bool) (reqs : list (string * value))
  : option_desc :=
  {| key := k; otype_of := TBoolean; default := Bool d;
     requires := reqs; item_format := None |}.

(** Modelled from the spec: [CREATE_SCHEMA] (§3 ContainerOptions, the
    [requires] example of nvidia_drivers on gpu). *)
Definition CREATE_SCHEMA : schema :=
  {| version := 1;
     sections :=
       [ {| sec_id := "integration"; sec_title := "Desktop Integration";
            sec_options := [ bool_opt "session_mode" false [];
                             bool_opt "dbus_mux" false [] ] |};
         {| sec_id := "mounts"; sec_title := "Host Mounts";
            sec_options :=
              [ bool_opt "host_rootfs" true [];
                bool_opt "mount_home" true [];
                {| key := "custom_mounts"; otype_of := TArray;
                   default := StrList []; requires := [];
                   item_format := Some "directory-path" |} ] |};
         {| sec_id := "gpu"; sec_title := "Graphics";
            sec_options := [ bool_opt "gpu" true [];
                             bool_opt "nvidia_drivers" true
                               [("gpu", Bool true)] ] |} ] |}.

(** The normalized record written back as an options dictionary. *)
Definition to_variant (v : value) : variant :=
  match v with
  | Bool b => VBool b
  | Str s => VStr s
  | StrList l => VArr (map VStr l)
  end.

Definition to_raw (opts : container_options) : raw_map :=
  map (fun '(k, v) => (k, to_variant v)) opts.

(** The schemas the daemon can serve: unique keys, well-typed defaults. *)
Definition keys_unique (sch : schema) : Prop := NoDup (map key (all_options sch)).

Definition defaults_typed (sch : schema) : Prop :=
  forall o, In o (all_options sch) ->
            coerce (otype_of o) (to_variant (default o)) = Some (default o).

Fixpoint nodupb (l : list string) : bool :=
  match l with
  | [] => true
  | x :: rest => negb (existsb (String.eqb x) rest) && nodupb rest
  end.

End Options.

(* ------------------------------------------------------------------------- *)
(** ** KCM create page (part_006): dependency gating of option widgets *)

Module CreatePage.

(** The JavaScript values the page stores in [optionValues] and reads from
    the schema model. *)
Inductive jsvalue :=
| JsUndefined
| JsBool (b : bool)
| JsStr (s : string)
| JsArray (l : list jsvalue).

(** [a === b]; arrays are objects and compare by identity, and every array
    the page holds is a distinct object, so two arrays are never [===]. *)
Definition js_strict_eqb (a b : jsvalue) : bool :=
  match a, b with
  | JsUndefined, JsUndefined => true
  | JsBool x, JsBool y => Bool.eqb x y
  | JsStr x, JsStr y => String.eqb x y
  | _, _ => false
  end.

(** One row of an options model: [KeyRole] and [DefaultValueRole]. *)
Record schema_option := { opt_key : string; opt_default : jsvalue }.

(** [kcm.schemaModel]: its sections, each the rows of its options model. *)
Definition schema_model := list (list schema_option).

Fixpoint default_in_section (key : string) (os : list schema_option)
  : option jsvalue :=
  match os with
  | [] => None
  | o :: rest =>
      if String.eqb (opt_key o) key then Some (opt_default o)
      else default_in_section key rest
  end.

(** [getDefaultValue(key)]. *)
Fixpoint getDefaultValue (sm : schema_model) (key : string) : jsvalue :=
  match sm with
  | [] => JsUndefined
  | sec :: rest =>
      match default_in_section key sec with
      | Some v => v
      | None => getDefaultValue rest key
      end
  end.

(** The built-in members a plain object or an array inherits, by name: the
    function-valued properties of [Object.prototype] and of
    [Array.prototype] in the JavaScript engine that runs the page. The
    [__proto__] accessor of [Object.prototype] is not in these lists; it is
    modelled on its own. *)
Record js_builtins := {
  object_prototype_names : list string;
  array_prototype_names : list string }.

(** The lists of ECMAScript 2017 (with its Annex B members). *)
Definition ecmascript_2017 : js_builtins := {|
  object_prototype_names :=
    ["constructor"; "hasOwnProperty"; "isPrototypeOf"; "propertyIsEnumerable";
     "toLocaleString"; "toString"; "valueOf"; "__defineGetter__";
     "__defineSetter__"; "__lookupGetter__"; "__lookupSetter__"];
  array_prototype_names :=
    ["concat"; "constructor"; "copyWithin"; "entries"; "every"; "fill"; "filter";
     "find"; "findIndex"; "forEach"; "includes"; "indexOf"; "join"; "keys";
     "lastIndexOf"; "map"; "pop"; "push"; "reduce"; "reduceRight"; "reverse";
     "shift"; "slice"; "some"; "sort"; "splice"; "toLocaleString"; "toString";
     "unshift"; "values"] |}.

(** What reading a property of [optionValues] gives: a stored value, an
    array's [length], or a built-in object named by its path
    (["Object.prototype"], ["Object.prototype.toString"], ...). *)
Inductive jsread :=
| RVal (v : jsvalue)
| RNum (n : nat)
| RBuiltin (path : string).

(** The prototype of [optionValues]: [Object.prototype], or an array the
    page assigned to its [__proto__]. *)
Inductive prototype :=
| ObjectProto
| ArrayProto (l : list jsvalue).

(** [optionValues], a JS object: its own properties in insertion order, and
    its prototype. *)
Record option_values := { own : list (string * jsvalue); proto : prototype }.

(** [{}]. *)
Definition empty_object : option_values := {| own := []; proto := ObjectProto |}.

Definition in_names (k : string) (names : list string) : bool :=
  existsb (String.eqb k) names.

(** The array index [i < n] that the property name [k] denotes. *)
Definition array_index (k : string) (n : nat) : option nat :=
  find (fun i => String.eqb k (NilEmpty.string_of_uint (Nat.to_uint i))) (seq 0 n).

(** [k in p] for the prototype [p]: an array's indices and [length], then
    [Array.prototype], then [Object.prototype]. *)
Definition proto_has (B : js_builtins) (p : prototype) (k : string) : bool :=
  match p with
  | ObjectProto => String.eqb k "__proto__" || in_names k (object_prototype_names B)
  | ArrayProto l =>
      match array_index k (length l) with
      | Some _ => true
      | None =>
          String.eqb k "length" || String.eqb k "__proto__"
          || in_names k (array_prototype_names B) || in_names k (object_prototype_names B)
      end
  end.

(** [obj[k]] found on the prototype [p] of [obj]; the [__proto__] getter
    returns [p] itself. *)
Definition proto_get (B : js_builtins) (p : prototype) (k : string) : jsread :=
  match p with
  | ObjectProto =>
      if String.eqb k "__proto__" then RBuiltin "Object.prototype"
      else if in_names k (object_prototype_names B) then RBuiltin ("Object.prototype." ++ k)
      else RVal JsUndefined
  | ArrayProto l =>
      match array_index k (length l) with
      | Some i => RVal (nth i l JsUndefined)
      | None =>
          if String.eqb k "length" then RNum (length l)
          else if String.eqb k "__proto__" then RVal (JsArray l)
          else if in_names k (array_prototype_names B) then RBuiltin ("Array.prototype." ++ k)
          else if in_names k (object_prototype_names B) then RBuiltin ("Object.prototype." ++ k)
          else RVal JsUndefined
      end
  end.

(** [key in obj]: an own property, or one along the prototype chain. *)
Definition js_in (B : js_builtins) (ov : option_values) (k : string) : bool :=
  match Options.assoc k (own ov) with
  | Some _ => true
  | None => proto_has B (proto ov) k
  end.

(** [obj[key]]. *)
Definition js_get (B : js_builtins) (ov : option_values) (k : string) : jsread :=
  match Options.assoc k (own ov) with
  | Some v => RVal v
  | None => proto_get B (proto ov) k
  end.

(** A name [optionValues] has only through its prototype. *)
Definition inherited (B : js_builtins) (ov : option_values) (k : string) : bool :=
  match Options.assoc k (own ov) with
  | Some _ => false
  | None => proto_has B (proto ov) k
  end.

(** [getOptionValue(key)]: [optionValues[key]] when [key in optionValues],
    else the schema default. *)
Definition getOptionValue (B : js_builtins) (sm : schema_model) (ov : option_values)
    (key : string) : jsread :=
  if js_in B ov key then js_get B ov key else RVal (getDefaultValue sm key).



End CreatePage.

(* ------------------------------------------------------------------------- *)
(** ** Profile reconciler (daemon startup) *)

Module Profiles.

Section Reconcile.

(** Profile content and its canonical serialization; the content hash. *)
Variable content : Type.
Variable serialize : content -> string.
Variable hash : string -> string.

Record profile := { p_content : content; p_hash : option string }.

(** The backend's profiles by name. *)
Definition backend := string -> option profile.

Definition put (be : backend) (n : string) (p : profile) : backend :=
  fun n' => if String.eqb n' n then Some p else be n'.

Inductive event := Created (name : string) | Updated (name : string).
Inductive write := CreateProfile (name : string) | UpdateProfile (name : string).

Definition event_name (e : event) : string :=
  match e with Created n | Updated n => n end.

Record rstate := { r_backend : backend; r_log : list event; r_writes : list write }.

Definition fresh_hash (c : content) : string := hash (serialize c).

(** Modelled from the spec: the per-profile step of [Reconcile] (§4.3). *)
Definition reconcile_one (st : rstate) (d : string * content) : rstate :=
  let '(n, c) := d in
  let h := fresh_hash c in
  let p := {| p_content := c; p_hash := Some h |} in
  match r_backend st n with
  | None =>
      {| r_backend := put (r_backend st) n p;
         r_log := r_log st ++ [Created n];
         r_writes := r_writes st ++ [CreateProfile n] |}
  | Some old =>
      match p_hash old with
      | Some h' =>
          if String.eqb h' h then st
          else {| r_backend := put (r_backend st) n p;
                  r_log := r_log st ++ [Updated n];
                  r_writes := r_writes st ++ [UpdateProfile n] |}
      | None =>
          {| r_backend := put (r_backend st) n p;
             r_log := r_log st ++ [Updated n];
             r_writes := r_writes st ++ [UpdateProfile n] |}
      end
  end.

(** Modelled from the spec: [Reconcile(definitions)] (§4.3), one run with
    a fresh log. *)
Definition reconcile (defs : list (string * content)) (be : backend) : rstate :=
  fold_left reconcile_one defs {| r_backend := be; r_log := []; r_writes := [] |}.

End Reconcile.

Arguments put {content}.
Arguments p_content {content}.
Arguments p_hash {content}.
Arguments r_backend {content}.
Arguments r_log {content}.
Arguments r_writes {content}.
Arguments Build_profile {content}.
Arguments Build_rstate {content}.
Arguments reconcile_one {content}.
Arguments reconcile {content}.
Arguments fresh_hash {content}.

End Profiles.

(* ------------------------------------------------------------------------- *)
(** ** Mount/resource planner *)

Module Planner.

Inductive mode := Default | Session | DbusMux.

Inductive item_kind := FullRootBind | TargetedBind | Symlink | RawDevice.

Record item := {
  i_name : string;
  i_kind : item_kind;
  i_source : string;
  i_target : string
}.

Definition HOST_PREFIX := "/.kapsule/host".
Definition X11_DIR := "/tmp/.X11-unix".

(** The options the planner reads from the normalized record. *)
Record plan_options := {
  host_rootfs : bool;
  mount_home : bool;
  custom_mounts : list string;
  gpu : bool;
  integration : mode
}.

(** Host state discovered for the calling user. *)
Record host_state := {
  hs_uid : string;
  hs_user : string;
  hs_home : string;
  (** display and audio sockets present in the user's runtime directory,
      relative to it (e.g. "wayland-0", "pipewire-0", "pulse/native") *)
  hs_sockets : list string
}.

Definition runtime_dir (hs : host_state) : string := "/run/user/" ++ hs_uid hs.
Definition bus_path (hs : host_state) : string := runtime_dir hs ++ "/bus".

(** Device names from a path: every "/" becomes "-". *)
Fixpoint sanitize (s : string) : string :=
  match s with
  | EmptyString => EmptyString
  | String c rest =>
      String (if Ascii.eqb c "/"%char then "-"%char else c) (sanitize rest)
  end.

Definition link (p : string) : item :=
  {| i_name := "kapsule-link" ++ sanitize p; i_kind := Symlink;
     i_source := HOST_PREFIX ++ p; i_target := p |}.

Definition hostfs_device : item :=
  {| i_name := "hostfs"; i_kind := FullRootBind;
     i_source := "/"; i_target := HOST_PREFIX |}.

(** The targeted mounts of minimal mode: a host path bound at the same
    path under the host prefix. *)
Definition hostrun_device (hs : host_state) : item :=
  {| i_name := "kapsule-hostrun-" ++ hs_uid hs; i_kind := TargetedBind;
     i_source := runtime_dir hs; i_target := HOST_PREFIX ++ runtime_dir hs |}.

Definition x11_device : item :=
  {| i_name := "kapsule-x11"; i_kind := TargetedBind;
     i_source := X11_DIR; i_target := HOST_PREFIX ++ X11_DIR |}.

(** Modelled from the spec: devices planned at container creation (§4.4). *)
Definition plan_create (o : plan_options) (hs : host_state) : list item :=
  (if host_rootfs o then [hostfs_device] else [])
  ++ (if gpu o
      then [ {| i_name := "gpu"; i_kind := RawDevice;
                i_source := ""; i_target := "" |} ]
      else [])
  ++ (if mount_home o
      then [ {| i_name := "kapsule-home-" ++ hs_user hs; i_kind := TargetedBind;
                i_source := hs_home hs; i_target := hs_home hs |} ]
      else [])
  ++ map (fun p => {| i_name := "kapsule-mount" ++ sanitize p;
                      i_kind := TargetedBind; i_source := p; i_target := p |})
         (custom_mounts o).

(** Modelled from the spec: items planned when the user enters the
    container (§4.4): targeted mounts and socket symlinks in minimal mode,
    and the bus socket according to the integration mode. *)
Definition plan_enter (o : plan_options) (hs : host_state) : list item :=
  (if host_rootfs o then [] else [hostrun_device hs; x11_device])
  ++ (if host_rootfs o then []
      else map link
             (filter (fun p => match integration o with
                               | Default => true
                               | _ => negb (String.eqb p (bus_path hs))
                               end)
                     (map (fun s => runtime_dir hs ++ "/" ++ s) (hs_sockets hs))))
  ++ (match integration o with
      | Default => [link (bus_path hs)]
      | _ => []
      end).

(** Modelled from the spec: [Plan(container_identity, options, host_state)],
    at creation or at an entry. *)
Inductive phase := AtCreate | AtEnter.

Definition Plan (ph : phase) (o : plan_options) (hs : host_state) : list item :=
  match ph with
  | AtCreate => plan_create o hs
  | AtEnter => plan_enter o hs
  end.

Definition is_bus_symlink (hs : host_state) (i : item) : bool :=
  match i_kind i with
  | Symlink => String.eqb (i_target i) (bus_path hs)
  | _ => false
  end.

Definition is_symlink (i : item) : bool :=
  match i_kind i with Symlink => true | _ => false end.

Definition is_full_root (i : item) : bool :=
  match i_kind i with FullRootBind => true | _ => false end.

Definition is_device (i : item) : bool :=
  match i_kind i with Symlink => false | _ => true end.

Definition has_device (devs : list item) (n : string) : bool :=
  existsb (fun d => String.eqb (i_name d) n) devs.

(** Devices are recognised by name: a planned device already present is
    left as it is. *)
Definition add_devices (devs : list item) (items : list item) : list item :=
  fold_left (fun acc i => if is_device i && negb (has_device acc (i_name i))
                          then (acc ++ [i])%list else acc) items devs.

Definition create_devices (o : plan_options) (hs : host_state) : list item :=
  add_devices [] (plan_create o hs).

Definition enter_devices (devs : list item) (o : plan_options) (hs : host_state)
  : list item :=
  add_devices devs (plan_enter o hs).

End Planner.

(* ------------------------------------------------------------------------- *)
(** ** Operation engine (operations.py) *)

Module Operations.

Inductive status := Pending | Running | Completed | Failed | Cancelled.

Definition terminal (s : status) : bool :=
  match s with Completed | Failed | Cancelled => true | _ => false end.

(** Progress events of one operation (§4.1). *)
Inductive event :=
| Message (severity : nat) (text : string) (indent : nat)
| ProgressStarted (sub_id : string) (description : string) (total indent : nat)
| ProgressUpdate (sub_id : string) (current rate : nat)
| ProgressCompleted (sub_id : string) (success : bool) (message : string)
| CompletedEv (success : bool) (error_message : string).

(** The work function as the engine sees it: events it emits and external
    engine calls, each a suspension point, that succeed or raise a fault. *)
Inductive action :=
| Emit (e : event)
| EngineCall (fault : option string).

Record operation := {
  op_id : nat;
  op_kind : string;
  op_target : string;
  op_status : status;
  op_cancel : bool;
  op_work : list action;
  op_events : list event
}.

Definition with_state (op : operation) (s : status) (c : bool)
    (w : list action) (evs : list event) : operation :=
  {| op_id := op_id op; op_kind := op_kind op; op_target := op_target op;
     op_status := s; op_cancel := c; op_work := w; op_events := evs |}.

(** Modelled from the spec: [Cancel()] sets the cooperative flag (§4.1). *)
Definition cancel (op : operation) : operation :=
  with_state op (op_status op) true (op_work op) (op_events op).

(** Modelled from the spec: the engine's transitions (§4.1). *)
Inductive step : operation -> operation -> Prop :=
| StepStart op :
    op_status op = Pending ->
    step op (with_state op Running (op_cancel op) (op_work op) (op_events op))
| StepEmit op e w :
    op_status op = Running -> op_work op = Emit e :: w ->
    step op (with_state op Running (op_cancel op) w (op_events op ++ [e]))
| StepCall op w :
    op_status op = Running -> op_work op = EngineCall None :: w ->
    op_cancel op = false ->
    step op (with_state op Running false w (op_events op))
| StepFault op msg w :
    op_status op = Running -> op_work op = EngineCall (Some msg) :: w ->
    op_cancel op = false ->
    step op (with_state op Failed false w (op_events op ++ [CompletedEv false msg]))
| StepObserveCancel op f w :
    op_status op = Running -> op_work op = EngineCall f :: w ->
    op_cancel op = true ->
    step op (with_state op Cancelled true w
               (op_events op ++ [CompletedEv false "cancelled"]))
| StepFinish op :
    op_status op = Running -> op_work op = [] ->
    step op (with_state op Completed (op_cancel op) [] (op_events op ++ [CompletedEv true ""]))
| StepCancel op :
    step op (cancel op).

Inductive steps : operation -> operation -> Prop :=
| steps_refl op : steps op op
| steps_next op1 op2 op3 : step op1 op2 -> steps op2 op3 -> steps op1 op3.

End Operations.

(* ------------------------------------------------------------------------- *)
(** ** NVIDIA driver-injection mount hook (data/nvidia-container-hook.sh) *)

Module NvidiaHook.

(** What the script reads: its environment, its third argument, and the
    host facts its tests probe. An empty variable is [Some ""]. *)
Record env := {
  LXC_HOOK_VERSION : option string;
  arg3 : option string;
  LXC_HOOK_TYPE : option string;
  LXC_ROOTFS_MOUNT : option string;
  has_nvidia_cli : bool;            (* command -v nvidia-container-cli *)
  dev_nvidia0 : bool;               (* [ -e /dev/nvidia0 ] *)
  ldconfig_real : option string;    (* command -v ldconfig.real *)
  ldconfig : option string;         (* command -v ldconfig *)
  apparmor : bool                   (* [ -d /sys/kernel/security/apparmor ] *)
}.

Inductive effect := ChangeProfileUnconfined.

Inductive outcome :=
| Exit (code : nat) (effects : list effect)
| Exec (prog : string) (args : list string) (effects : list effect).

(** [${VAR:-d}]: the default when unset or empty. *)
Definition or_default (v : option string) (d : string) : string :=
  match v with
  | Some s => if String.eqb s "" then d else s
  | None => d
  end.

Definition hook_type (e : env) : string :=
  match or_default (LXC_HOOK_VERSION e) "0" with
  | "0" => or_default (arg3 e) ""
  | "1" => or_default (LXC_HOOK_TYPE e) ""
  | _ => ""
  end.

Definition ldconfig_path (e : env) : string :=
  match ldconfig_real e with
  | Some p => p
  | None => match ldconfig e with Some p => p | None => "" end
  end.

Definition configure_args (e : env) : list string :=
  ["--no-cgroups"; "--no-devbind"; "--device=all"; "--compute"; "--utility";
   "--graphics"]
  ++ (if String.eqb (ldconfig_path e) "" then []
      else ["--ldconfig=@" ++ ldconfig_path e]).

(** The script under [set -eu]; an unset [LXC_ROOTFS_MOUNT] at the [exec]
    line aborts with status 1. *)
Definition run (e : env) : outcome :=
  if negb (String.eqb (hook_type e) "mount") then Exit 0 []
  else if negb (has_nvidia_cli e) then Exit 0 []
  else if negb (dev_nvidia0 e) then Exit 0 []
  else
    let effs := if apparmor e then [ChangeProfileUnconfined] else [] in
    match LXC_ROOTFS_MOUNT e with
    | Some root =>
        Exec "nvidia-container-cli" ("configure" :: configure_args e ++ [root]) effs
    | None => Exit 1 effs
    end.

End NvidiaHook.

(* ------------------------------------------------------------------------- *)
(** ** Client-side schema parser (types.cpp) and KCM refresh *)

Module SchemaClient.


(** A [QJsonValue]; numbers are the integral ones. *)
Inductive json :=
| JUndefined
| JNull
| JBool (b : bool)
| JNumber (n : Z)
| JString (s : string)
| JArray (l : list json)
| JObject (fields : list (string * json)).

(** [QJsonObject::value]: [Undefined] for a missing key. *)
Definition value (o : list (string * json)) (k : string) : json :=
  match Options.assoc k o with Some v => v | None => JUndefined end.

Definition contains (o : list (string * json)) (k : string) : bool :=
  match Options.assoc k o with Some _ => true | None => false end.

(** [QJsonValue::toInt()]: 0 unless an integral number in [int] range. *)
Definition toInt (v : json) : Z :=
  match v with
  | JNumber n => if (-2147483648 <=? n)%Z && (n <=? 2147483647)%Z then n else 0%Z
  | _ => 0%Z
  end.

Definition toString (v : json) : string :=
  match v with JString s => s | _ => "" end.

Definition toArray (v : json) : list json :=
  match v with JArray l => l | _ => [] end.

Definition toObject (v : json) : list (string * json) :=
  match v with JObject o => o | _ => [] end.

Record CreateSchemaOption := {
  opt_key : string;
  opt_type : string;
  opt_title : string;
  opt_description : string;
  opt_defaultValue : json;
  opt_itemFormat : string;
  opt_dependencies : list (string * json)
}.

Record CreateSchemaSection := {
  sec_id : string;
  sec_title : string;
  sec_options : list CreateSchemaOption
}.

Record CreateSchema := {
  version : Z;
  sections : list CreateSchemaSection
}.

(** A default-constructed [CreateSchema]. *)
Definition empty_schema : CreateSchema := {| version := 0; sections := [] |}.

Definition parse_option (optVal : json) : CreateSchemaOption :=
  let optObj := toObject optVal in
  {| opt_key := toString (value optObj "key");
     opt_type := toString (value optObj "type");
     opt_title := toString (value optObj "title");
     opt_description := toString (value optObj "description");
     opt_defaultValue := value optObj "default";
     opt_itemFormat :=
       if contains optObj "items"
       then toString (value (toObject (value optObj "items")) "format")
       else "";
     opt_dependencies :=
       if contains optObj "requires"
       then toObject (value optObj "requires")
       else [] |}.

Definition parse_section (sectionVal : json) : CreateSchemaSection :=
  let sectionObj := toObject sectionVal in
  {| sec_id := toString (value sectionObj "id");
     sec_title := toString (value sectionObj "title");
     sec_options := map parse_option (toArray (value sectionObj "options")) |}.

Section Parser.

(** [QJsonDocument::fromJson]: [None] on a parse error, otherwise the
    document's top-level value. *)
Variable fromJson : string -> option json.

(** [parseCreateSchema]. *)
Definition parseCreateSchema (s : string) : CreateSchema :=
  match fromJson s with
  | Some (JObject root) =>
      {| version := toInt (value root "version");
         sections := map parse_section (toArray (value root "sections")) |}
  | _ => empty_schema
  end.

(** The schema part of [KCMKapsule::refresh]: [m_schemaModel] and the
    function-static [schemaLoaded]. *)
Record kcm_state := { schema_model : CreateSchema; schema_loaded : bool }.

Definition refresh_schema (st : kcm_state) (schemaJson : string) : kcm_state :=
  if schema_loaded st then st
  else if String.eqb schemaJson "" then st
  else
    let schema := parseCreateSchema schemaJson in
    if (0 <? version schema)%Z
    then {| schema_model := schema; schema_loaded := true |}
    else st.

End Parser.

End SchemaClient.

(* ------------------------------------------------------------------------- *)
(** ** CreateContainer (container_service.py) *)

Module ContainerService.

Import Options.

Inductive backend_call :=
| CreateInstance (name image : string) (devices : list Planner.item).

Definition get_bool (opts : container_options) (k : string) (d : bool) : bool :=
  match assoc k opts with Some (Bool b) => b | _ => d end.

Definition get_list (opts : container_options) (k : string) : list string :=
  match assoc k opts with Some (StrList l) => l | _ => [] end.

Definition plan_options_of (opts : container_options) : Planner.plan_options :=
  {| Planner.host_rootfs := get_bool opts "host_rootfs" true;
     Planner.mount_home := get_bool opts "mount_home" true;
     Planner.custom_mounts := get_list opts "custom_mounts";
     Planner.gpu := get_bool opts "gpu" true;
     Planner.integration :=
       if get_bool opts "dbus_mux" false then Planner.DbusMux
       else if get_bool opts "session_mode" false then Planner.Session
       else Planner.Default |}.

(** Modelled from the spec: [CreateContainer(name, image, options_map)]
    validates first and only then issues backend calls (§2, §7). *)
Definition CreateContainer (hs : Planner.host_state) (name image : string)
    (raw : raw_map) : validation_error + list backend_call :=
  match validate CREATE_SCHEMA raw with
  | inl e => inl e
  | inr opts =>
      inr [CreateInstance name image
             (Planner.create_devices (plan_options_of opts) hs)]
  end.

End ContainerService.

(* ------------------------------------------------------------------------- *)
(** ** Schema helpers of types.cpp (part_008) *)

Module SchemaHelpers.

Import SchemaClient.

(** [flag.replace('_', '-')] over the key's characters. *)
Fixpoint replace_underscores (s : string) : string :=
  match s with
  | EmptyString => EmptyString
  | String c rest =>
      String (if Ascii.eqb c "_"%char then "-"%char else c) (replace_underscores rest)
  end.

(** [CreateSchemaOption::cliFlag]. *)
Definition cliFlag (o : CreateSchemaOption) : string := replace_underscores (opt_key o).

(** [CreateSchema::allOptions]: the options of every section, in order. *)
Definition allOptions (s : CreateSchema) : list CreateSchemaOption :=
  fold_left (fun result section => (result ++ sec_options section)%list) (sections s) [].

Fixpoint find_in_options (key : string) (os : list CreateSchemaOption)
  : option CreateSchemaOption :=
  match os with
  | [] => None
  | opt :: rest => if String.eqb (opt_key opt) key then Some opt else find_in_options key rest
  end.

Fixpoint find_in_sections (key : string) (ss : list CreateSchemaSection)
  : option CreateSchemaOption :=
  match ss with
  | [] => None
  | section :: rest =>
      match find_in_options key (sec_options section) with
      | Some opt => Some opt
      | None => find_in_sections key rest
      end
  end.

(** [CreateSchema::option(key)]. *)
Definition CreateSchema_option (s : CreateSchema) (key : string) : option CreateSchemaOption :=
  find_in_sections key (sections s).

End SchemaHelpers.

(* ------------------------------------------------------------------------- *)
(** ** [ContainerOptions::toVariantMap] (libkapsule-qt/types.cpp) *)

Module ClientOptions.

Import Options.

(** [Kapsule::ContainerOptions] with its member initialisers. *)
Record ContainerOptions := {
  sessionMode : bool;
  dbusMux : bool;
  hostRootfs : bool;
  mountHome : bool;
  customMounts : list string;
  gpu : bool;
  nvidiaDrivers : bool
}.

(** [ContainerOptions{}]. *)
Definition default_options : ContainerOptions :=
  {| sessionMode := false; dbusMux := false; hostRootfs := true; mountHome := true;
     customMounts := []; gpu := true; nvidiaDrivers := true |}.

(** [QVariantMap::insert]: replaces the value of a present key. The map's
    key order does not matter to any lookup and is not modelled. *)
Fixpoint qmap_insert (k : string) (v : value) (m : list (string * value))
  : list (string * value) :=
  match m with
  | [] => [(k, v)]
  | (k', v') :: rest =>
      if String.eqb k k' then (k, v) :: rest else (k', v') :: qmap_insert k v rest
  end.

(** [ContainerOptions::toVariantMap]; a [QDBusVariant] of a bool is [Bool],
    of a [QStringList] is [StrList]. *)
Definition toVariantMap (o : ContainerOptions) : list (string * value) :=
  let map0 : list (string * value) := [] in
  let map1 := if sessionMode o then qmap_insert "session_mode" (Bool (sessionMode o)) map0 else map0 in
  let map2 := if dbusMux o then qmap_insert "dbus_mux" (Bool (dbusMux o)) map1 else map1 in
  let map3 := if negb (hostRootfs o) then qmap_insert "host_rootfs" (Bool (hostRootfs o)) map2 else map2 in
  let map4 := if negb (mountHome o) then qmap_insert "mount_home" (Bool (mountHome o)) map3 else map3 in
  let map5 := match customMounts o with
              | [] => map4
              | _ => qmap_insert "custom_mounts" (StrList (customMounts o)) map4
              end in
  let map6 := if negb (gpu o) then qmap_insert "gpu" (Bool (gpu o)) map5 else map5 in
  if negb (nvidiaDrivers o) then qmap_insert "nvidia_drivers" (Bool (nvidiaDrivers o)) map6 else map6.

(** The schema key each field is sent under. *)
Definition fields : list (string * (ContainerOptions -> value)) :=
  [("session_mode", fun o => Bool (sessionMode o));
   ("dbus_mux", fun o => Bool (dbusMux o));
   ("host_rootfs", fun o => Bool (hostRootfs o));
   ("mount_home", fun o => Bool (mountHome o));
   ("custom_mounts", fun o => StrList (customMounts o));
   ("gpu", fun o => Bool (gpu o));
   ("nvidia_drivers", fun o => Bool (nvidiaDrivers o))].

End ClientOptions.

(* ------------------------------------------------------------------------- *)
(** ** Schema list models (createschemamodel.cpp) and the create page's
    reads and writes of option values (part_006) *)

Module SchemaModels.

Import SchemaClient.

(** What [data()] returns. [QDefault v] is [v.toVariant()] of a schema
    default, [QOptionsModel] the nested [SchemaOptionsModel*]. *)
Inductive qvariant :=
| QInvalid
| QString (s : string)
| QOptionsModel (m : list CreateSchemaOption)
| QDefault (v : json)
| QDeps (d : list (string * json)).

(** [Qt::UserRole]. *)
Definition UserRole : Z := 256.

Definition SectionIdRole : Z := UserRole + 1.
Definition SectionTitleRole : Z := UserRole + 2.
Definition OptionsModelRole : Z := UserRole + 3.

Definition KeyRole : Z := UserRole + 1.
Definition TypeRole : Z := UserRole + 2.
Definition TitleRole : Z := UserRole + 3.
Definition DescriptionRole : Z := UserRole + 4.
Definition DefaultValueRole : Z := UserRole + 5.
Definition DependenciesRole : Z := UserRole + 6.
Definition ItemFormatRole : Z := UserRole + 7.

(** [CreateSchemaModel::SectionData]; [optionsModel] is the options model's
    [m_options]. *)
Record SectionData := { sd_id : string; sd_title : string; sd_options : list CreateSchemaOption }.

(** [CreateSchemaModel::setSchema]: [m_sections] after the reset. *)
Definition setSchema (schema : CreateSchema) : list SectionData :=
  map (fun s => {| sd_id := sec_id s; sd_title := sec_title s; sd_options := sec_options s |})
      (sections schema).

Definition rowCount {A} (l : list A) : Z := Z.of_nat (length l).

(** [CreateSchemaModel::data]. *)
Definition section_data (m_sections : list SectionData) (row role : Z) : qvariant :=
  if (row <? 0)%Z || (rowCount m_sections <=? row)%Z then QInvalid
  else match nth_error m_sections (Z.to_nat row) with
       | None => QInvalid
       | Some section =>
           if Z.eqb role SectionIdRole then QString (sd_id section)
           else if Z.eqb role SectionTitleRole then QString (sd_title section)
           else if Z.eqb role OptionsModelRole then QOptionsModel (sd_options section)
           else QInvalid
       end.

(** [SchemaOptionsModel::data]. *)
Definition option_data (m_options : list CreateSchemaOption) (row role : Z) : qvariant :=
  if (row <? 0)%Z || (rowCount m_options <=? row)%Z then QInvalid
  else match nth_error m_options (Z.to_nat row) with
       | None => QInvalid
       | Some opt =>
           if Z.eqb role KeyRole then QString (opt_key opt)
           else if Z.eqb role TypeRole then QString (opt_type opt)
           else if Z.eqb role TitleRole then QString (opt_title opt)
           else if Z.eqb role DescriptionRole then QString (opt_description opt)
           else if Z.eqb role DefaultValueRole then QDefault (opt_defaultValue opt)
           else if Z.eqb role DependenciesRole then QDeps (opt_dependencies opt)
           else if Z.eqb role ItemFormatRole then QString (opt_itemFormat opt)
           else QInvalid
       end.

(** The first [Some] of [f] over a [for] loop's indices. *)
Fixpoint first_some {A B} (f : A -> option B) (l : list A) : option B :=
  match l with
  | [] => None
  | x :: rest => match f x with Some y => Some y | None => first_some f rest end
  end.

(** [optKey === key] for a [QVariant] handed to JavaScript. *)
Definition qv_is_string (v : qvariant) (key : string) : bool :=
  match v with QString s => String.eqb s key | _ => false end.

(** The inner loop of [getDefaultValue]. *)
Definition scan_options (optModel : list CreateSchemaOption) (key : string) : option qvariant :=
  first_some (fun o =>
      let optKey := option_data optModel (Z.of_nat o) (UserRole + 1) in
      if qv_is_string optKey key
      then Some (option_data optModel (Z.of_nat o) (UserRole + 5))
      else None)
    (seq 0 (Z.to_nat (rowCount optModel))).

(** [getDefaultValue(key)] of the create page over [kcm.schemaModel];
    [None] is [undefined]. *)
Definition qml_getDefaultValue (schemaModel : list SectionData) (key : string) : option qvariant :=
  first_some (fun s =>
      match section_data schemaModel (Z.of_nat s) (UserRole + 3) with
      | QOptionsModel optModel => scan_options optModel key
      | _ => None   (* if (!optModel) continue; *)
      end)
    (seq 0 (Z.to_nat (rowCount schemaModel))).

End SchemaModels.

Module CreatePageState.

Import CreatePage.

(** An own property set: an existing property keeps its place, a new one
    is appended. *)
Fixpoint js_set (key : string) (v : jsvalue) (ps : list (string * jsvalue))
  : list (string * jsvalue) :=
  match ps with
  | [] => [(key, v)]
  | (k, v') :: rest => if String.eqb k key then (k, v) :: rest else (k, v') :: js_set key v rest
  end.

(** [obj[key] = value] on an ordinary object. An own property is updated.
    Otherwise the inherited [__proto__] setter makes an object value the
    prototype and ignores any other value; every other name, inherited or
    not, becomes an own property (the inherited built-ins are writable data
    properties, so an assignment shadows them). *)
Definition js_assign (ov : option_values) (key : string) (v : jsvalue) : option_values :=
  match Options.assoc key (own ov) with
  | Some _ => {| own := js_set key v (own ov); proto := proto ov |}
  | None =>
      if String.eqb key "__proto__" then
        match v with
        | JsArray l => {| own := own ov; proto := ArrayProto l |}
        | _ => ov
        end
      else {| own := js_set key v (own ov); proto := proto ov |}
  end.

(** [Object.assign({}, ov)]: the own properties of [ov], assigned in order
    to a fresh object. *)
Definition object_assign_copy (ov : option_values) : option_values :=
  fold_left (fun o '(k, v) => js_assign o k v) (own ov) empty_object.

(** [delete obj[key]]: removes an own property; an inherited one stays. *)
Definition js_delete (key : string) (ov : option_values) : option_values :=
  {| own := filter (fun '(k, _) => negb (String.eqb k key)) (own ov); proto := proto ov |}.

(** [setOptionValue(key, value)]. *)
Definition setOptionValue (sm : schema_model) (ov : option_values) (key : string)
    (value : jsvalue) : option_values :=
  let defVal := getDefaultValue sm key in
  let newValues := object_assign_copy ov in
  if js_strict_eqb value defVal then js_delete key newValues
  else js_assign newValues key value.

(** [String.prototype.replace] with a string pattern: the first occurrence. *)
Fixpoint replace_first (pat rep s : string) : string :=
  if String.prefix pat s then rep ++ substring (String.length pat) (String.length s - String.length pat) s
  else match s with
       | EmptyString => EmptyString
       | String c rest => String c (replace_first pat rep rest)
       end.

(** [(currentVals ?? []).concat([path])] for a stored value; [None] is the
    [TypeError] of a value without [concat]. A string's [concat] appends the
    array's string form, here [path]. *)
Definition concat_path (cur : jsvalue) (path : string) : option jsvalue :=
  match cur with
  | JsUndefined => Some (JsArray [JsStr path])
  | JsArray l => Some (JsArray (l ++ [JsStr path]))
  | JsStr s => Some (JsStr (s ++ path))
  | JsBool _ => None
  end.

(** The same for any read: a number, a built-in function and
    [Object.prototype] have no [concat] either. *)
Definition concat_read (cur : jsread) (path : string) : option jsvalue :=
  match cur with
  | RVal v => concat_path v path
  | RNum _ | RBuiltin _ => None
  end.

(** The folder dialog's [onAccepted]; [None] is a thrown [TypeError]. *)
Definition folderAccepted (B : js_builtins) (sm : schema_model) (ov : option_values)
    (optionKey selectedFolder : string) : option option_values :=
  if Nat.ltb 0 (String.length optionKey) then
    let path := replace_first "file://" "" selectedFolder in
    match concat_read (getOptionValue B sm ov optionKey) path with
    | Some currentVals => Some (setOptionValue sm ov optionKey currentVals)
    | None => None
    end
  else Some ov.

(** The values [optionValues] takes: [{}] and then [setOptionValue] calls
    (the switch, text field and folder dialog all go through it). *)
Inductive reachable (sm : schema_model) : option_values -> Prop :=
| reach_init : reachable sm empty_object
| reach_set ov key value : reachable sm ov -> reachable sm (setOptionValue sm ov key value).

End CreatePageState.

(* ------------------------------------------------------------------------- *)
(** ** The settings module (kcm_kapsule.cpp) *)

Module Kcm.

(** Signals the module emits. *)
Inductive signal :=
| LoadingChanged
| StatusMessageChanged
| OperationFailed (msg : string)
| ContainerCreated
| DefaultImageChanged
| CountChanged.

(** Calls on [m_client]. *)
Inductive client_call :=
| ListContainers
| GetCreateSchema
| GetConfig
| CreateCall (name image : string) (options : list (string * CreatePage.jsvalue))
| DeleteCall (name : string) (force : bool)
| StartCall (name : string)
| StopCall (name : string).

(** [Kapsule::OperationResult]. *)
Record OperationResult := { success : bool; error : string }.

Section Module_.

Variable Container : Type.
Variable fromJson : string -> option SchemaClient.json.

(** The module's members; [schema] holds [m_schemaModel]'s schema and the
    function-static [schemaLoaded]. [signals] and [calls] record what was
    emitted and called, in order. *)
Record kcm := {
  m_loading : bool;
  m_statusMessage : string;
  m_defaultImage : string;
  connected : bool;
  containers : list Container;
  schema : SchemaClient.kcm_state;
  signals : list signal;
  calls : list client_call
}.

(** The daemon's replies to one [refresh]: [listContainers()],
    [getCreateSchema()], and [config().value("default_image").toString()]. *)
Record refresh_replies := {
  r_containers : list Container;
  r_schemaJson : string;
  r_default_image : string
}.

Definition emit (s : signal) (st : kcm) : kcm :=
  {| m_loading := m_loading st; m_statusMessage := m_statusMessage st;
     m_defaultImage := m_defaultImage st; connected := connected st;
     containers := containers st; schema := schema st;
     signals := (signals st ++ [s])%list; calls := calls st |}.

Definition call (c : client_call) (st : kcm) : kcm :=
  {| m_loading := m_loading st; m_statusMessage := m_statusMessage st;
     m_defaultImage := m_defaultImage st; connected := connected st;
     containers := containers st; schema := schema st;
     signals := signals st; calls := (calls st ++ [c])%list |}.

(** [setLoading]. *)
Definition setLoading (st : kcm) (loading : bool) : kcm :=
  if Bool.eqb (m_loading st) loading then st
  else emit LoadingChanged
         {| m_loading := loading; m_statusMessage := m_statusMessage st;
            m_defaultImage := m_defaultImage st; connected := connected st;
            containers := containers st; schema := schema st;
            signals := signals st; calls := calls st |}.

(** [setStatusMessage]. *)
Definition setStatusMessage (st : kcm) (message : string) : kcm :=
  if String.eqb (m_statusMessage st) message then st
  else emit StatusMessageChanged
         {| m_loading := m_loading st; m_statusMessage := message;
            m_defaultImage := m_defaultImage st; connected := connected st;
            containers := containers st; schema := schema st;
            signals := signals st; calls := calls st |}.

(** [ContainerListModel::setContainers]. *)
Definition setContainers (cs : list Container) (st : kcm) : kcm :=
  emit CountChanged
    {| m_loading := m_loading st; m_statusMessage := m_statusMessage st;
       m_defaultImage := m_defaultImage st; connected := connected st;
       containers := cs; schema := schema st;
       signals := signals st; calls := calls st |}.

Definition set_schema (s : SchemaClient.kcm_state) (st : kcm) : kcm :=
  {| m_loading := m_loading st; m_statusMessage := m_statusMessage st;
     m_defaultImage := m_defaultImage st; connected := connected st;
     containers := containers st; schema := s;
     signals := signals st; calls := calls st |}.

Definition set_default_image (img : string) (st : kcm) : kcm :=
  emit DefaultImageChanged
    {| m_loading := m_loading st; m_statusMessage := m_statusMessage st;
       m_defaultImage := img; connected := connected st;
       containers := containers st; schema := schema st;
       signals := signals st; calls := calls st |}.

Definition cannot_connect : string :=
  "Cannot connect to kapsule-daemon. Is the service running?".

Definition name_required : string := "Container name is required.".

(** [KCMKapsule::refresh], its coroutine run to completion with the
    replies [rep]. *)
Definition refresh (rep : refresh_replies) (st : kcm) : kcm :=
  if negb (connected st) then setStatusMessage st cannot_connect
  else
    let st := setLoading st true in
    let st := setStatusMessage st "" in
    let st := call ListContainers st in
    let st := setContainers (r_containers rep) st in
    let st := if SchemaClient.schema_loaded (schema st) then st
              else let st := call GetCreateSchema st in
                   set_schema (SchemaClient.refresh_schema fromJson (schema st) (r_schemaJson rep)) st in
    let st := call GetConfig st in
    let st := if String.eqb (m_defaultImage st) (r_default_image rep) then st
              else set_default_image (r_default_image rep) st in
    setLoading st false.

(** The common tail of the create, delete, start and stop coroutines. *)
Definition on_result (rep : refresh_replies) (created : bool) (result : OperationResult)
    (st : kcm) : kcm :=
  if success result then
    let st := setStatusMessage st "" in
    let st := if created then emit ContainerCreated st else st in
    refresh rep st
  else
    let st := setStatusMessage st (error result) in
    let st := setLoading st false in
    emit (OperationFailed (error result)) st.

(** [KCMKapsule::createContainer]; [result] is the daemon's reply and [rep]
    the replies of the refresh that follows a success. *)
Definition createContainer (rep : refresh_replies) (result : OperationResult)
    (name image : string) (options : list (string * CreatePage.jsvalue)) (st : kcm) : kcm :=
  if String.eqb name "" then
    let st := setStatusMessage st name_required in
    emit (OperationFailed (m_statusMessage st)) st
  else
    let st := setLoading st true in
    let st := setStatusMessage st ("Creating container " ++ name ++ "…") in
    let st := call (CreateCall name image options) st in
    on_result rep true result st.

(** [KCMKapsule::deleteContainer]. *)
Definition deleteContainer (rep : refresh_replies) (result : OperationResult)
    (name : string) (st : kcm) : kcm :=
  let st := setLoading st true in
  let st := setStatusMessage st ("Deleting container " ++ name ++ "…") in
  let st := call (DeleteCall name true) st in
  on_result rep false result st.

(** [KCMKapsule::startContainer]. *)
Definition startContainer (rep : refresh_replies) (result : OperationResult)
    (name : string) (st : kcm) : kcm :=
  let st := setLoading st true in
  let st := setStatusMessage st ("Starting container " ++ name ++ "…") in
  let st := call (StartCall name) st in
  on_result rep false result st.

(** [KCMKapsule::stopContainer]. *)
Definition stopContainer (rep : refresh_replies) (result : OperationResult)
    (name : string) (st : kcm) : kcm :=
  let st := setLoading st true in
  let st := setStatusMessage st ("Stopping container " ++ name ++ "…") in
  let st := call (StopCall name) st in
  on_result rep false result st.

End Module_.

Arguments m_loading {Container}. Arguments m_statusMessage {Container}.
Arguments m_defaultImage {Container}. Arguments connected {Container}.
Arguments containers {Container}. Arguments schema {Container}.
Arguments signals {Container}. Arguments calls {Container}.
Arguments Build_kcm {Container}. Arguments r_containers {Container}.
Arguments r_schemaJson {Container}. Arguments r_default_image {Container}.
Arguments Build_refresh_replies {Container}.
Arguments emit {Container}. Arguments call {Container}.
Arguments setLoading {Container}. Arguments setStatusMessage {Container}.
Arguments setContainers {Container}. Arguments set_schema {Container}.
Arguments set_default_image {Container}.
Arguments refresh {Container}. Arguments on_result {Container}.
Arguments createContainer {Container}. Arguments deleteContainer {Container}.
Arguments startContainer {Container}. Arguments stopContainer {Container}.

End Kcm.

(* ========================================================================= *)
(** * Proofs *)

Module OptionsFacts.

Import Options.

Lemma assoc_cons {A} (k k' : string) (v : A) m :
  assoc k ((k', v) :: m) = if String.eqb k' k then Some v else assoc k m.
Proof. reflexivity. Qed.

Lemma find_unknown_some sch raw k :
  find_unknown sch raw = Some k -> In k (map fst raw) /\ in_schema sch k = false.
Proof.
  induction raw as [|[k' v] rest IH]; simpl; [discriminate|].
  destruct (in_schema sch k') eqn:E.
  - intros H; destruct (IH H); auto.
  - intros H; inversion H; subst; auto.
Qed.

Lemma find_unknown_none sch raw :
  find_unknown sch raw = None <-> (forall k, In k (map fst raw) -> in_schema sch k = true).
Proof.
  induction raw as [|[k' v] rest IH]; simpl.
  - split; [intros _ k []|reflexivity].
  - destruct (in_schema sch k') eqn:E.
    + rewrite IH. split.
      * intros H k [<-|Hk]; auto.
      * intros H k Hk; auto.
    + split; [discriminate|]. intros H. rewrite (H k') in E; auto; discriminate.
Qed.

Lemma normalize_assoc os raw opts k :
  normalize os raw = inr opts ->
  assoc k opts = match find_option k os with
                 | Some o => resolve o raw
                 | None => None
                 end.
Proof.
  revert opts; induction os as [|o rest IH]; simpl; intros opts H.
  - inversion H; reflexivity.
  - destruct (resolve o raw) as [v|] eqn:Ev; [|discriminate].
    destruct (normalize rest raw) as [e|m] eqn:Em; [discriminate|].
    inversion H; subst; clear H. rewrite assoc_cons.
    destruct (String.eqb (key o) k); [congruence|]. apply IH; reflexivity.
Qed.

Lemma normalize_keys os raw opts :
  normalize os raw = inr opts -> map fst opts = map key os.
Proof.
  revert opts; induction os as [|o rest IH]; simpl; intros opts H.
  - inversion H; reflexivity.
  - destruct (resolve o raw); [|discriminate].
    destruct (normalize rest raw) as [e|m] eqn:Em; [discriminate|].
    inversion H; subst; simpl; f_equal; auto.
Qed.





Lemma find_option_in k os o :
  find_option k os = Some o -> In o os /\ key o = k.
Proof.
  induction os as [|o' rest IH]; simpl; [discriminate|].
  destruct (String.eqb (key o') k) eqn:E.
  - intros H; inversion H; subst. apply String.eqb_eq in E. auto.
  - intros H; destruct (IH H); auto.
Qed.

Lemma find_option_key os o :
  NoDup (map key os) -> In o os -> find_option (key o) os = Some o.
Proof.
  induction os as [|o' rest IH]; simpl; [intros _ []|].
  intros Hnd Hin. inversion Hnd as [|? ? Hnotin Hnd']; subst.
  destruct (String.eqb (key o') (key o)) eqn:E.
  - apply String.eqb_eq in E. destruct Hin as [->|Hin]; [reflexivity|].
    exfalso; apply Hnotin. rewrite E. apply in_map; exact Hin.
  - destruct Hin as [->|Hin]; [rewrite String.eqb_refl in E; discriminate|].
    apply IH; auto.
Qed.

Lemma find_option_exists k os :
  In k (map key os) -> exists o, find_option k os = Some o.
Proof.
  induction os as [|o rest IH]; simpl; [intros []|].
  destruct (String.eqb (key o) k) eqn:E; [eauto|].
  intros [Hk|Hk]; [subst; rewrite String.eqb_refl in E; discriminate|auto].
Qed.

Lemma all_strings_map l : all_strings (map VStr l) = Some l.
Proof. induction l as [|x l IH]; simpl; [reflexivity|rewrite IH; reflexivity]. Qed.

(** A coerced value survives being sent again. *)
Lemma coerce_to_variant t x v :
  coerce t x = Some v -> coerce t (to_variant v) = Some v.
Proof.
  destruct t, x; simpl; try discriminate; intros H.
  - inversion H; reflexivity.
  - inversion H; reflexivity.
  - destruct (all_strings l) as [r|]; inversion H; subst.
    simpl. rewrite all_strings_map. reflexivity.
Qed.

Lemma assoc_to_raw k opts :
  assoc k (to_raw opts) = option_map to_variant (assoc k opts).
Proof.
  induction opts as [|[k' v] rest IH]; simpl; [reflexivity|].
  destruct (String.eqb k' k); auto.
Qed.

Lemma to_raw_keys opts : map fst (to_raw opts) = map fst opts.
Proof. induction opts as [|[k v] rest IH]; simpl; congruence. Qed.

Lemma normalize_ext os raw1 raw2 :
  (forall o, In o os -> resolve o raw1 = resolve o raw2) ->
  normalize os raw1 = normalize os raw2.
Proof.
  induction os as [|o rest IH]; simpl; intros H; [reflexivity|].
  rewrite (H o (or_introl eq_refl)), IH; auto.
Qed.

Lemma normalize_resolve os raw opts o :
  normalize os raw = inr opts -> In o os -> exists v, resolve o raw = Some v.
Proof.
  revert opts; induction os as [|o' rest IH]; simpl; intros opts H Hin; [destruct Hin|].
  destruct (resolve o' raw) as [v|] eqn:Ev; [|discriminate].
  destruct (normalize rest raw) as [e|m] eqn:Em; [discriminate|].
  destruct Hin as [->|Hin]; eauto.
Qed.

Lemma CREATE_SCHEMA_keys_unique : keys_unique CREATE_SCHEMA.
Proof.
  unfold keys_unique; simpl.
  repeat constructor; simpl; intuition discriminate.
Qed.

Lemma CREATE_SCHEMA_defaults_typed : defaults_typed CREATE_SCHEMA.
Proof.
  unfold defaults_typed; simpl; intros o H.
  repeat (destruct H as [<-|H]; [reflexivity|]); destruct H.
Qed.

End OptionsFacts.

Module CreatePageFacts.

Import CreatePage.






(** Under [Object.prototype], an inherited name reads as a built-in. *)
Lemma getOptionValue_inherited_object B sm ov k :
  proto ov = ObjectProto -> inherited B ov k = true ->
  exists path, getOptionValue B sm ov k = RBuiltin path.
Proof.
  unfold inherited, getOptionValue, js_in, js_get. intros Hp. rewrite Hp.
  destruct (Options.assoc k (own ov)); [discriminate|]. intros H. rewrite H. simpl in *.
  destruct (String.eqb k "__proto__"); [eauto|]. simpl in H. rewrite H. eauto.
Qed.

End CreatePageFacts.

Module ValidatorClaims.

Import Options OptionsFacts.




Lemma validate_unknown sch raw k :
  In k (map fst raw) -> in_schema sch k = false ->
  exists k', validate sch raw = inl (UnknownOption k') /\
             In k' (map fst raw) /\ in_schema sch k' = false /\
             ((forall k'', In k'' (map fst raw) -> in_schema sch k'' = false -> k'' = k) ->
              k' = k).
Proof.
  intros Hin Hk. unfold validate.
  destruct (find_unknown sch raw) as [k'|] eqn:E.
  - destruct (find_unknown_some _ _ _ E) as [Hin' Hk'].
    exists k'; repeat split; auto.
  - rewrite find_unknown_none in E. rewrite (E k Hin) in Hk; discriminate.
Qed.

(** Claim C6: for every options map that holds a key the schema does not
    know, [validate] fails with an unknown-option error naming an unknown
    key of the map (that key itself when it is the map's only unknown key),
    and [CreateContainer] returns that error without any backend call. *)
Theorem unknown_option_rejected hs name image (raw : raw_map) k :
  In k (map fst raw) -> in_schema CREATE_SCHEMA k = false ->
  exists k', validate CREATE_SCHEMA raw = inl (UnknownOption k') /\
             In k' (map fst raw) /\ in_schema CREATE_SCHEMA k' = false /\
             ((forall k'', In k'' (map fst raw) ->
                           in_schema CREATE_SCHEMA k'' = false -> k'' = k) -> k' = k) /\
             ContainerService.CreateContainer hs name image raw = inl (UnknownOption k').
Proof.
  intros Hin Hk. destruct (validate_unknown _ _ _ Hin Hk) as (k' & Hv & H1 & H2 & H3).
  exists k'; repeat split; auto.
  unfold ContainerService.CreateContainer. rewrite Hv. reflexivity.
Qed.

Lemma unknown_option_rejected_witness :
  exists k', validate CREATE_SCHEMA [("gpu", VBool true); ("bogus", VStr "x")]
               = inl (UnknownOption k') /\ k' = "bogus".
Proof.
  destruct (unknown_option_rejected
              {| Planner.hs_uid := "1000"; Planner.hs_user := "u";
                 Planner.hs_home := "/home/u"; Planner.hs_sockets := [] |}
              "dev" "distro:24.04" [("gpu", VBool true); ("bogus", VStr "x")] "bogus")
    as (k' & Hv & Hin & Hk & Honly & _).
  - simpl; auto.
  - reflexivity.
  - exists k'; split; [exact Hv|]. apply Honly.
    intros k'' [<-|[<-|[]]]; [simpl; discriminate|reflexivity].
Defined.

Section Normalization.

Variable sch : schema.
Hypothesis Hkeys : keys_unique sch.
Hypothesis Hdefaults : defaults_typed sch.

Lemma resolve_to_raw raw opts o :
  normalize (all_options sch) raw = inr opts -> In o (all_options sch) ->
  resolve o (to_raw opts) = resolve o raw.
Proof.
  intros Hn Ho. destruct (normalize_resolve _ _ _ _ Hn Ho) as [v Hv].
  unfold resolve at 1. rewrite assoc_to_raw.
  rewrite (normalize_assoc _ _ _ (key o) Hn), (find_option_key _ _ Hkeys Ho), Hv.
  simpl. unfold resolve in Hv.
  destruct (assoc (key o) raw) as [x|].
  - eapply coerce_to_variant; eauto.
  - inversion Hv; subst. apply Hdefaults; exact Ho.
Qed.

(** Claim C7: a successful [validate] returns a record holding every schema
    key, in schema order; a key the caller left out holds its schema
    default; and validating that record again returns it unchanged. *)
Theorem validate_fills_defaults_idempotent raw opts :
  validate sch raw = inr opts ->
  map fst opts = map key (all_options sch) /\
  (forall o, In o (all_options sch) -> assoc (key o) raw = None ->
             assoc (key o) opts = Some (default o)) /\
  validate sch (to_raw opts) = inr opts.
Proof.
  unfold validate. intros H.
  destruct (find_unknown sch raw) eqn:Eu; [discriminate|].
  destruct (normalize (all_options sch) raw) as [e|opts'] eqn:En; [discriminate|].
  destruct (check_deps (all_options sch) opts') eqn:Ed; [discriminate|].
  inversion H; subst opts'; clear H.
  split; [|split].
  - eapply normalize_keys; eauto.
  - intros o Ho Hnone.
    rewrite (normalize_assoc _ _ _ (key o) En), (find_option_key _ _ Hkeys Ho).
    unfold resolve; rewrite Hnone; reflexivity.
  - assert (find_unknown sch (to_raw opts) = None) as Hu.
    { apply find_unknown_none. intros k Hk.
      rewrite to_raw_keys, (normalize_keys _ _ _ En) in Hk.
      destruct (find_option_exists _ _ Hk) as [o Ho].
      unfold in_schema; rewrite Ho; reflexivity. }
    rewrite Hu.
    rewrite (normalize_ext (all_options sch) (to_raw opts) raw)
      by (intros o Ho; apply (resolve_to_raw raw); auto).
    rewrite En, Ed. reflexivity.
Qed.

End Normalization.

Lemma validate_fills_defaults_idempotent_witness :
  validate CREATE_SCHEMA [("mount_home", VBool false); ("custom_mounts", VArr [VStr "/opt/data"])]
    = inr [("session_mode", Bool false); ("dbus_mux", Bool false);
           ("host_rootfs", Bool true); ("mount_home", Bool false);
           ("custom_mounts", StrList ["/opt/data"]); ("gpu", Bool true);
           ("nvidia_drivers", Bool true)] /\
  validate CREATE_SCHEMA
    (to_raw [("session_mode", Bool false); ("dbus_mux", Bool false);
             ("host_rootfs", Bool true); ("mount_home", Bool false);
             ("custom_mounts", StrList ["/opt/data"]); ("gpu", Bool true);
             ("nvidia_drivers", Bool true)])
    = inr [("session_mode", Bool false); ("dbus_mux", Bool false);
           ("host_rootfs", Bool true); ("mount_home", Bool false);
           ("custom_mounts", StrList ["/opt/data"]); ("gpu", Bool true);
           ("nvidia_drivers", Bool true)].
Proof.
  split; [reflexivity|].
  apply (validate_fills_defaults_idempotent CREATE_SCHEMA
           CREATE_SCHEMA_keys_unique CREATE_SCHEMA_defaults_typed
           [("mount_home", VBool false); ("custom_mounts", VArr [VStr "/opt/data"])]).
  reflexivity.
Defined.

End ValidatorClaims.

Module ProfilesFacts.

Import Profiles.

Lemma nodupb_NoDup l : Options.nodupb l = true -> NoDup l.
Proof.
  induction l as [|x rest IH]; simpl; [constructor|].
  rewrite andb_true_iff, negb_true_iff. intros [Hx Hr]. constructor; auto.
  intros Hin. assert (existsb (String.eqb x) rest = true) as E
    by (apply existsb_exists; exists x; split; [exact Hin|apply String.eqb_refl]).
  congruence.
Qed.

Section Facts.

Variable content : Type.
Variable serialize : content -> string.
Variable hash : string -> string.


Lemma put_same (be : backend content) n p : put be n p n = Some p.
Proof. unfold put; rewrite String.eqb_refl; reflexivity. Qed.

Lemma put_other (be : backend content) n n' p : n' <> n -> put be n p n' = be n'.
Proof. unfold put; intros H; apply String.eqb_neq in H; rewrite H; reflexivity. Qed.

(** A reconcile_one serialize hash for one profile touches only that profile and logs only about it. *)
Lemma step_other st n' c n :
  n <> n' ->
  r_backend (reconcile_one serialize hash st (n', c)) n = r_backend st n /\
  (forall e, event_name e = n -> (In e (r_log (reconcile_one serialize hash st (n', c))) <-> In e (r_log st))).
Proof.
  intros Hne. unfold reconcile_one.
  assert (Hlog : forall ev, event_name ev = n' -> forall e, event_name e = n ->
            (In e (r_log st ++ [ev])%list <-> In e (r_log st))).
  { intros ev Hev e He. rewrite in_app_iff. simpl. split; [|auto].
    intros [H|[<-|[]]]; [exact H|congruence]. }
  destruct (r_backend st n') as [old|] eqn:Eb; [destruct (p_hash old) as [h'|]; [destruct (String.eqb h' (fresh_hash serialize hash c))|]|];
    simpl; split; try (apply put_other; exact Hne); try reflexivity;
    intros e He; first [ apply (Hlog (Created n') eq_refl e He)
                       | apply (Hlog (Updated n') eq_refl e He) | tauto ].
Qed.

Lemma fold_other l st n :
  ~ In n (map fst l) ->
  r_backend (fold_left (reconcile_one serialize hash) l st) n = r_backend st n /\
  (forall e, event_name e = n -> (In e (r_log (fold_left (reconcile_one serialize hash) l st)) <-> In e (r_log st))).
Proof.
  revert st; induction l as [|[n' c] rest IH]; cbn [fold_left map fst In];
    intros st Hn; [tauto|].
  destruct (IH (reconcile_one serialize hash st (n', c))) as [IH1 IH2]; [tauto|].
  destruct (step_other st n' c n) as [S1 S2]; [intros ->; tauto|].
  split; [congruence|]. intros e He. rewrite IH2, S2; tauto.
Qed.

Lemma split_def (defs : list (string * content)) n c :
  NoDup (map fst defs) -> In (n, c) defs ->
  exists l1 l2, defs = (l1 ++ (n, c) :: l2)%list /\
                ~ In n (map fst l1) /\ ~ In n (map fst l2).
Proof.
  intros Hnd Hin. destruct (in_split _ _ Hin) as (l1 & l2 & ->).
  exists l1, l2; split; [reflexivity|].
  rewrite map_app in Hnd; simpl in Hnd.
  apply NoDup_remove_2 in Hnd. rewrite in_app_iff in Hnd. tauto.
Qed.

(** After a run every defined profile carries the fresh hash of its
    definition. *)
Lemma reconcile_hash defs be n c :
  NoDup (map fst defs) -> In (n, c) defs ->
  exists p, r_backend (reconcile serialize hash defs be) n = Some p /\
            p_hash p = Some (fresh_hash serialize hash c).
Proof.
  intros Hnd Hin. destruct (split_def _ _ _ Hnd Hin) as (l1 & l2 & -> & H1 & H2).
  unfold reconcile. rewrite fold_left_app. simpl.
  set (st1 := fold_left (reconcile_one serialize hash) l1 _).
  rewrite (proj1 (fold_other l2 _ n H2)).
  unfold reconcile_one.
  destruct (r_backend st1 n) as [old|] eqn:Eb;
    [destruct (p_hash old) as [h'|] eqn:Eh; [destruct (String.eqb h' (fresh_hash serialize hash c)) eqn:Eq|]|];
    simpl; try (rewrite put_same; eexists; split; [reflexivity|reflexivity]).
  exists old; split; [exact Eb|]. apply String.eqb_eq in Eq; congruence.
Qed.

(** A run over profiles that all carry their fresh hash changes nothing. *)
Lemma fold_stable l st :
  (forall n c, In (n, c) l ->
     exists p, r_backend st n = Some p /\ p_hash p = Some (fresh_hash serialize hash c)) ->
  fold_left (reconcile_one serialize hash) l st = st.
Proof.
  induction l as [|[n c] rest IH]; cbn [fold_left In]; intros H; [reflexivity|].
  destruct (H n c (or_introl eq_refl)) as (p & Hb & Hh).
  assert (reconcile_one serialize hash st (n, c) = st) as ->.
  { unfold reconcile_one. rewrite Hb, Hh, String.eqb_refl. reflexivity. }
  apply IH; intros; apply H; auto.
Qed.

End Facts.

(** Claim C2: for a profile whose stored hash tag is absent or differs from
    the fresh hash of its current definition, [reconcile] overwrites its
    content and hash tag with the definition and its fresh hash, and logs
    an "updated" event and no "created" event for it. *)
Theorem reconcile_updates_stale {content} (serialize : content -> string)
    (hash : string -> string) defs (be : backend content) n c old :
  NoDup (map fst defs) -> In (n, c) defs -> be n = Some old ->
  p_hash old <> Some (fresh_hash serialize hash c) ->
  r_backend (reconcile serialize hash defs be) n
    = Some {| p_content := c; p_hash := Some (fresh_hash serialize hash c) |} /\
  In (Updated n) (r_log (reconcile serialize hash defs be)) /\
  ~ In (Created n) (r_log (reconcile serialize hash defs be)).
Proof.
  intros Hnd Hin Hbe Hstale.
  destruct (split_def _ serialize hash _ _ _ Hnd Hin) as (l1 & l2 & -> & H1 & H2).
  unfold reconcile. rewrite fold_left_app. cbn [fold_left].
  set (st0 := {| r_backend := be; r_log := []; r_writes := [] |}).
  destruct (fold_other _ serialize hash l1 st0 n H1) as [B1 L1].
  set (st1 := fold_left (reconcile_one serialize hash) l1 st0) in *.
  simpl in B1.
  assert (Hstep : r_backend (reconcile_one serialize hash st1 (n, c)) n
                    = Some {| p_content := c; p_hash := Some (fresh_hash serialize hash c) |} /\
                  r_log (reconcile_one serialize hash st1 (n, c)) = (r_log st1 ++ [Updated n])%list).
  { unfold reconcile_one. rewrite B1, Hbe.
    destruct (p_hash old) as [h'|] eqn:Eh.
    - destruct (String.eqb h' (fresh_hash serialize hash c)) eqn:Eq.
      + apply String.eqb_eq in Eq; subst; contradiction.
      + cbn [r_backend r_log]; rewrite put_same; auto.
    - cbn [r_backend r_log]; rewrite put_same; auto. }
  destruct Hstep as [Sb Sl].
  destruct (fold_other _ serialize hash l2 (reconcile_one serialize hash st1 (n, c)) n H2)
    as [B2 L2].
  repeat split.
  - congruence.
  - apply L2; [reflexivity|]. rewrite Sl, in_app_iff; simpl; auto.
  - rewrite L2 by reflexivity. rewrite Sl, in_app_iff. simpl.
    intros [Hc|[Hc|[]]]; [|discriminate].
    apply (L1 (Created n) eq_refl) in Hc. simpl in Hc; exact Hc.
Qed.

Definition demo_backend : backend string :=
  fun n => if String.eqb n "kapsule-base"
           then Some {| p_content := "old"; p_hash := Some "stale-hash-value" |}
           else None.

Lemma reconcile_updates_stale_witness :
  r_backend (reconcile (fun s : string => s) (fun s => "sha:" ++ s)
               [("kapsule-base", "cfg")] demo_backend) "kapsule-base"
    = Some {| p_content := "cfg"; p_hash := Some "sha:cfg" |} /\
  r_log (reconcile (fun s : string => s) (fun s => "sha:" ++ s)
           [("kapsule-base", "cfg")] demo_backend) = [Updated "kapsule-base"].
Proof.
  split; [|reflexivity].
  apply (reconcile_updates_stale (fun s : string => s) (fun s => "sha:" ++ s)
           [("kapsule-base", "cfg")] demo_backend "kapsule-base" "cfg"
           {| p_content := "old"; p_hash := Some "stale-hash-value" |}).
  - apply nodupb_NoDup; reflexivity.
  - simpl; auto.
  - reflexivity.
  - simpl; discriminate.
Defined.

(** Claim C3: with the same definitions, a second consecutive run of
    [reconcile] issues no backend write, logs no event, and leaves every
    stored profile (and so every hash tag) as the first run left it. *)
Theorem reconcile_idempotent {content} (serialize : content -> string)
    (hash : string -> string) defs (be : backend content) :
  NoDup (map fst defs) ->
  r_writes (reconcile serialize hash defs (r_backend (reconcile serialize hash defs be))) = [] /\
  r_log (reconcile serialize hash defs (r_backend (reconcile serialize hash defs be))) = [] /\
  r_backend (reconcile serialize hash defs (r_backend (reconcile serialize hash defs be)))
    = r_backend (reconcile serialize hash defs be).
Proof.
  intros Hnd.
  assert (reconcile serialize hash defs (r_backend (reconcile serialize hash defs be))
          = {| r_backend := r_backend (reconcile serialize hash defs be);
               r_log := []; r_writes := [] |}) as ->.
  { unfold reconcile at 1. apply (fold_stable _ serialize hash).
    intros n c Hin. apply (reconcile_hash _ serialize hash); auto. }
  repeat split.
Qed.

Lemma reconcile_idempotent_witness :
  r_log (reconcile (fun s : string => s) (fun s => "sha:" ++ s)
           [("kapsule-base", "cfg"); ("kapsule-extra", "x")]
           (r_backend (reconcile (fun s : string => s) (fun s => "sha:" ++ s)
              [("kapsule-base", "cfg"); ("kapsule-extra", "x")] demo_backend))) = [].
Proof.
  apply (reconcile_idempotent (fun s : string => s) (fun s => "sha:" ++ s)
           [("kapsule-base", "cfg"); ("kapsule-extra", "x")] demo_backend).
  apply nodupb_NoDup; reflexivity.
Defined.

End ProfilesFacts.

Module PlannerFacts.

Import Planner.

Lemma plan_create_no_symlink o hs i :
  In i (plan_create o hs) -> i_kind i <> Symlink.
Proof.
  unfold plan_create. rewrite !in_app_iff.
  intros [H|[H|[H|H]]];
    [destruct (host_rootfs o) | destruct (gpu o) | destruct (mount_home o) | ];
    simpl in *; try (destruct H as [<-|[]]; discriminate); try contradiction.
  apply in_map_iff in H. destruct H as (p & <- & _). discriminate.
Qed.

Lemma plan_create_no_full_root o hs i :
  host_rootfs o = false -> In i (plan_create o hs) -> i_kind i <> FullRootBind.
Proof.
  unfold plan_create. intros Hr. rewrite Hr, !in_app_iff.
  intros [H|[H|[H|H]]];
    [ | destruct (gpu o) | destruct (mount_home o) | ];
    simpl in *; try (destruct H as [<-|[]]; discriminate); try contradiction.
  apply in_map_iff in H. destruct H as (p & <- & _). discriminate.
Qed.

(** Names of the devices planned at creation never clash with the names of
    the targeted mounts of minimal mode. *)
Lemma plan_create_names o hs i :
  In i (plan_create o hs) ->
  i_name i <> i_name (hostrun_device hs) /\ i_name i <> i_name x11_device.
Proof.
  unfold plan_create. rewrite !in_app_iff.
  intros [H|[H|[H|H]]];
    [destruct (host_rootfs o) | destruct (gpu o) | destruct (mount_home o) | ];
    simpl in *; try contradiction;
    try (destruct H as [<-|[]]; simpl; split; discriminate).
  apply in_map_iff in H. destruct H as (p & <- & _). simpl; split; discriminate.
Qed.

Lemma add_devices_app devs l1 l2 :
  add_devices devs (l1 ++ l2) = add_devices (add_devices devs l1) l2.
Proof. unfold add_devices. apply fold_left_app. Qed.

Lemma add_devices_no_device devs items :
  (forall i, In i items -> is_device i = false) -> add_devices devs items = devs.
Proof.
  unfold add_devices. revert devs.
  induction items as [|i rest IH]; simpl; intros devs H; [reflexivity|].
  rewrite (H i (or_introl eq_refl)). simpl. apply IH; auto.
Qed.

Lemma add_devices_extends devs items :
  exists l, add_devices devs items = (devs ++ l)%list /\
            (forall i, In i l -> In i items).
Proof.
  unfold add_devices. revert devs.
  induction items as [|i rest IH]; simpl; intros devs.
  - exists []; rewrite app_nil_r; split; [reflexivity|intros _ []].
  - destruct (is_device i && negb (has_device devs (i_name i))).
    + destruct (IH (devs ++ [i])%list) as (l & -> & Hl).
      exists (i :: l). rewrite <- app_assoc. split; [reflexivity|].
      intros j [<-|Hj]; auto.
    + destruct (IH devs) as (l & -> & Hl). exists l; split; auto.
Qed.

Lemma add_devices_cons_new devs i rest :
  is_device i = true -> has_device devs (i_name i) = false ->
  add_devices devs (i :: rest) = add_devices (devs ++ [i])%list rest.
Proof. intros Hd Hn. unfold add_devices; simpl. rewrite Hd, Hn. reflexivity. Qed.

Lemma has_device_false devs n :
  (forall d, In d devs -> i_name d <> n) -> has_device devs n = false.
Proof.
  intros H. unfold has_device. apply not_true_iff_false. rewrite existsb_exists.
  intros (d & Hd & E). apply String.eqb_eq in E. exact (H d Hd E).
Qed.

Lemma filter_all_false {A} (f : A -> bool) l :
  (forall x, In x l -> f x = false) -> filter f l = [].
Proof.
  induction l as [|x l IH]; simpl; intros H; [reflexivity|].
  rewrite (H x (or_introl eq_refl)). apply IH; auto.
Qed.

Lemma not_symlink hs i : i_kind i <> Symlink ->
  is_symlink i = false /\ is_bus_symlink hs i = false /\ is_device i = true.
Proof.
  unfold is_symlink, is_bus_symlink, is_device.
  destruct (i_kind i); try (intros; repeat split; reflexivity). congruence.
Qed.

Lemma link_not_device p : is_device (link p) = false.
Proof. reflexivity. Qed.

End PlannerFacts.

Module PlannerClaims.

Import Planner PlannerFacts.

Definition demo_host : host_state :=
  {| hs_uid := "1000"; hs_user := "dev"; hs_home := "/home/dev";
     hs_sockets := ["wayland-0"; "pipewire-0"; "bus"] |}.

Definition demo_full_default : plan_options :=
  {| host_rootfs := true; mount_home := true; custom_mounts := [];
     gpu := true; integration := Default |}.

(** Claim C4, counterexample: with host_rootfs enabled and the Default
    integration mode, the entry plan holds a symlink at the container's bus
    path pointing at the host's bus socket under the host prefix. *)
Lemma plan_bus_symlink_counterexample :
  existsb (is_bus_symlink demo_host) (Plan AtEnter demo_full_default demo_host) = true.
Proof. reflexivity. Qed.

(** Claim C4 (amended): in Session mode [Plan] holds no symlink at the
    container's own bus path, with host_rootfs enabled or not; with
    host_rootfs enabled it holds no symlink at all in the other non-Default
    mode, and in Default mode its only symlink is the entry-time one from
    the container's bus path to the host's bus socket under the prefix. *)
Theorem plan_bus_symlink_by_mode ph o hs :
  (integration o = Session ->
     forall i, In i (Plan ph o hs) -> is_bus_symlink hs i = false) /\
  (host_rootfs o = true -> integration o <> Default ->
     forall i, In i (Plan ph o hs) -> is_symlink i = false) /\
  (host_rootfs o = true -> integration o = Default ->
     filter is_symlink (Plan ph o hs) =
       match ph with AtCreate => [] | AtEnter => [link (bus_path hs)] end).
Proof.
  destruct ph; simpl.
  - split; [|split].
    + intros _ i Hi. apply (not_symlink hs i), (plan_create_no_symlink o hs i Hi).
    + intros _ _ i Hi. apply (not_symlink hs i), (plan_create_no_symlink o hs i Hi).
    + intros _ _. apply filter_all_false. intros i Hi.
      apply (not_symlink hs i), (plan_create_no_symlink o hs i Hi).
  - unfold plan_enter. split; [|split].
    + intros Hs i Hi. rewrite Hs in Hi. rewrite !in_app_iff in Hi.
      destruct Hi as [Hi|[Hi|[]]].
      * destruct (host_rootfs o); simpl in Hi; [destruct Hi|].
        destruct Hi as [<-|[<-|[]]]; reflexivity.
      * destruct (host_rootfs o); [destruct Hi|].
        apply in_map_iff in Hi. destruct Hi as (p & <- & Hp).
        apply filter_In in Hp. destruct Hp as [_ Hp].
        unfold is_bus_symlink; simpl. apply negb_true_iff in Hp. exact Hp.
    + intros Hr Hm i Hi. rewrite Hr in Hi.
      destruct (integration o); [contradiction| |]; simpl in Hi; destruct Hi.
    + intros Hr Hm. rewrite Hr, Hm. reflexivity.
Qed.

Lemma plan_bus_symlink_by_mode_witness :
  filter is_symlink (Plan AtEnter demo_full_default demo_host)
    = [link (bus_path demo_host)].
Proof.
  apply (plan_bus_symlink_by_mode AtEnter demo_full_default demo_host); reflexivity.
Defined.

Lemma create_tail_no_full_root o hs i :
  In i ((if gpu o
         then [ {| i_name := "gpu"; i_kind := RawDevice; i_source := ""; i_target := "" |} ]
         else [])
        ++ (if mount_home o
            then [ {| i_name := "kapsule-home-" ++ hs_user hs; i_kind := TargetedBind;
                      i_source := hs_home hs; i_target := hs_home hs |} ]
            else [])
        ++ map (fun p => {| i_name := "kapsule-mount" ++ sanitize p;
                            i_kind := TargetedBind; i_source := p; i_target := p |})
               (custom_mounts o))%list ->
  is_full_root i = false.
Proof.
  rewrite !in_app_iff. intros [H|[H|H]];
    [destruct (gpu o) | destruct (mount_home o) | ];
    simpl in *; try (destruct H as [<-|[]]; reflexivity); try contradiction.
  apply in_map_iff in H. destruct H as (p & <- & _). reflexivity.
Qed.

(** Claim C5: in minimal mode the devices created with the container hold
    no full-root bind and neither targeted runtime mount; the first entry
    adds exactly two devices, the caller's runtime directory and the X11
    socket directory, each a targeted bind at the same path under the host
    prefix. With host_rootfs enabled the created devices hold exactly one
    full-root bind, and no entry ever adds a device. *)
Theorem minimal_mode_targeted_mounts o hs :
  (host_rootfs o = false ->
     (forall i, In i (create_devices o hs) ->
        i_kind i <> FullRootBind /\
        i_name i <> i_name (hostrun_device hs) /\ i_name i <> i_name x11_device) /\
     enter_devices (create_devices o hs) o hs
       = (create_devices o hs ++ [hostrun_device hs; x11_device])%list /\
     i_kind (hostrun_device hs) = TargetedBind /\ i_kind x11_device = TargetedBind /\
     i_source (hostrun_device hs) = runtime_dir hs /\ i_source x11_device = X11_DIR /\
     i_target (hostrun_device hs) = HOST_PREFIX ++ i_source (hostrun_device hs) /\
     i_target x11_device = HOST_PREFIX ++ i_source x11_device) /\
  (host_rootfs o = true ->
     filter is_full_root (create_devices o hs) = [hostfs_device] /\
     (forall devs, enter_devices devs o hs = devs)).
Proof.
  split.
  - intros Hr.
    assert (Hcr : forall i, In i (create_devices o hs) -> In i (plan_create o hs)).
    { intros i Hi. unfold create_devices in Hi.
      destruct (add_devices_extends [] (plan_create o hs)) as (l & E & Hl).
      rewrite E in Hi. simpl in Hi. auto. }
    assert (Hnames : forall i, In i (create_devices o hs) ->
        i_kind i <> FullRootBind /\
        i_name i <> i_name (hostrun_device hs) /\ i_name i <> i_name x11_device).
    { intros i Hi. apply Hcr in Hi. split; [apply (plan_create_no_full_root o hs i Hr Hi)|].
      apply (plan_create_names o hs i Hi). }
    split; [exact Hnames|]. repeat split; try reflexivity.
    unfold enter_devices, plan_enter. rewrite Hr. cbn [app].
    change (hostrun_device hs :: x11_device :: ?t)
      with ([hostrun_device hs; x11_device] ++ t)%list.
    rewrite add_devices_app.
    assert (add_devices (create_devices o hs) [hostrun_device hs; x11_device]
            = (create_devices o hs ++ [hostrun_device hs; x11_device])%list) as ->.
    { rewrite (add_devices_cons_new (create_devices o hs) (hostrun_device hs)); [| reflexivity |].
      2:{ apply has_device_false. intros d Hd; apply Hnames; exact Hd. }
      rewrite (add_devices_cons_new _ x11_device); [| reflexivity |].
      - rewrite <- app_assoc; reflexivity.
      - apply has_device_false.
        intros d Hd. rewrite in_app_iff in Hd. destruct Hd as [Hd|[<-|[]]].
        + apply Hnames; exact Hd.
        + simpl; discriminate. }
    apply add_devices_no_device. intros i Hi. rewrite in_app_iff in Hi.
    destruct Hi as [Hi|Hi].
    + apply in_map_iff in Hi. destruct Hi as (p & <- & _). reflexivity.
    + destruct (integration o); simpl in Hi; try contradiction.
      destruct Hi as [<-|[]]; reflexivity.
  - intros Hr. split.
    + unfold create_devices, plan_create. rewrite Hr. cbn [app].
      match goal with
      | |- context [add_devices [] (hostfs_device :: ?t)] =>
          change (add_devices [] (hostfs_device :: t)) with (add_devices [hostfs_device] t);
          destruct (add_devices_extends [hostfs_device] t) as (l & -> & Hl);
          assert (Ht : forall i, In i t -> is_full_root i = false)
            by (intros i Hi; eapply create_tail_no_full_root; exact Hi)
      end.
      simpl. rewrite filter_all_false; [reflexivity|].
      intros i Hi. apply Ht, Hl, Hi.
    + intros devs. unfold enter_devices. apply add_devices_no_device.
      unfold plan_enter. rewrite Hr. intros i Hi.
      destruct (integration o); simpl in Hi; try contradiction.
      destruct Hi as [<-|[]]; reflexivity.
Qed.

Definition demo_minimal_session : plan_options :=
  {| host_rootfs := false; mount_home := true; custom_mounts := ["/opt/data"];
     gpu := true; integration := Session |}.

Lemma minimal_mode_targeted_mounts_witness :
  enter_devices (create_devices demo_minimal_session demo_host) demo_minimal_session demo_host
    = (create_devices demo_minimal_session demo_host
       ++ [hostrun_device demo_host; x11_device])%list.
Proof.
  apply (minimal_mode_targeted_mounts demo_minimal_session demo_host). reflexivity.
Defined.

End PlannerClaims.

Module HookClaims.

Import NvidiaHook.

(** Claim C8: the mount hook exits with status 0 and no effect whenever the
    hook type is not "mount", nvidia-container-cli is missing or
    /dev/nvidia0 is missing; it runs nvidia-container-cli only when the hook
    type is "mount" and both the CLI and the device node are present. *)
Theorem hook_noop_without_driver e :
  (hook_type e <> "mount" \/ has_nvidia_cli e = false \/ dev_nvidia0 e = false ->
   run e = Exit 0 []) /\
  (forall prog args effs, run e = Exec prog args effs ->
     prog = "nvidia-container-cli" /\ hook_type e = "mount" /\
     has_nvidia_cli e = true /\ dev_nvidia0 e = true).
Proof.
  unfold run. split.
  - intros H. destruct (String.eqb (hook_type e) "mount") eqn:Et; [|reflexivity].
    apply String.eqb_eq in Et.
    destruct H as [H|[H|H]]; [contradiction| rewrite H; reflexivity |].
    rewrite H. destruct (has_nvidia_cli e); reflexivity.
  - intros prog args effs.
    destruct (String.eqb (hook_type e) "mount") eqn:Et; [|discriminate].
    destruct (has_nvidia_cli e); [|discriminate].
    destruct (dev_nvidia0 e); [|discriminate].
    destruct (LXC_ROOTFS_MOUNT e); [|discriminate].
    simpl. intros H; inversion H; subst.
    apply String.eqb_eq in Et. auto.
Qed.

Definition host_without_nvidia : env :=
  {| LXC_HOOK_VERSION := Some "1"; arg3 := None; LXC_HOOK_TYPE := Some "mount";
     LXC_ROOTFS_MOUNT := Some "/var/lib/incus/containers/dev/rootfs";
     has_nvidia_cli := false; dev_nvidia0 := false;
     ldconfig_real := None; ldconfig := Some "/usr/bin/ldconfig"; apparmor := true |}.

Lemma hook_noop_without_driver_witness : run host_without_nvidia = Exit 0 [].
Proof.
  apply (hook_noop_without_driver host_without_nvidia). right; left; reflexivity.
Defined.

End HookClaims.

Module OperationClaims.

Import Operations.

Lemma step_from_terminal op op' :
  step op op' -> terminal (op_status op) = true ->
  op_status op' = op_status op /\ op_events op' = op_events op.
Proof.
  intros Hs Ht. destruct Hs; simpl;
    try (match goal with H : op_status _ = _ |- _ => rewrite H in Ht end; discriminate).
  split; reflexivity.
Qed.

(** Claim C9: [Cancel] on an operation in a terminal state leaves its status
    and its events as they are; from a terminal state no sequence of
    transitions (cancellations included) changes the status or emits an
    event; and every status change is Pending to Running or Running to one
    of Completed, Failed, Cancelled. *)
Theorem cancel_after_terminal_noop :
  (forall op, terminal (op_status op) = true ->
     op_status (cancel op) = op_status op /\ op_events (cancel op) = op_events op) /\
  (forall op op', terminal (op_status op) = true -> steps op op' ->
     op_status op' = op_status op /\ op_events op' = op_events op) /\
  (forall op op', step op op' -> op_status op' <> op_status op ->
     (op_status op = Pending /\ op_status op' = Running) \/
     (op_status op = Running /\ terminal (op_status op') = true)).
Proof.
  split; [|split].
  - intros op _. split; reflexivity.
  - intros op op' Ht Hs. induction Hs as [op|op1 op2 op3 H12 H23 IH]; [split; reflexivity|].
    destruct (step_from_terminal op1 op2 H12 Ht) as [S E].
    rewrite S in IH. destruct (IH Ht) as [S' E']. split; congruence.
  - intros op op' Hs Hne. destruct Hs; simpl in *; auto; contradiction.
Qed.

Definition finished_op : operation :=
  {| op_id := 1; op_kind := "create"; op_target := "dev"; op_status := Completed;
     op_cancel := false; op_work := []; op_events := [CompletedEv true ""] |}.

Lemma cancel_after_terminal_noop_witness :
  op_status (cancel finished_op) = Completed /\
  op_events (cancel finished_op) = [CompletedEv true ""].
Proof.
  destruct (proj1 cancel_after_terminal_noop finished_op eq_refl) as [S E].
  split; [exact S | exact E].
Defined.

End OperationClaims.

Module SchemaClientClaims.

Import SchemaClient.

(** Claim C10: for every reply that does not parse as JSON or whose top
    level is not an object, [parseCreateSchema] returns the empty schema
    (version 0, no sections) and the KCM's refresh leaves its schema state
    as it was; in general refresh only installs a parsed schema whose
    version is greater than 0. *)
Theorem parse_create_schema_fails_closed (fromJson : string -> option json) s :
  (fromJson s = None \/ exists j, fromJson s = Some j /\ forall o, j <> JObject o) ->
  parseCreateSchema fromJson s = empty_schema /\
  (forall st, refresh_schema fromJson st s = st) /\
  (forall st s', refresh_schema fromJson st s' = st \/
     (schema_model (refresh_schema fromJson st s') = parseCreateSchema fromJson s' /\
      (0 < version (schema_model (refresh_schema fromJson st s')))%Z)).
Proof.
  intros Hbad.
  assert (Hp : parseCreateSchema fromJson s = empty_schema).
  { unfold parseCreateSchema. destruct Hbad as [-> | (j & -> & Hj)]; [reflexivity|].
    destruct j; try reflexivity. exfalso; eapply Hj; reflexivity. }
  split; [exact Hp|split].
  - intros st. unfold refresh_schema. rewrite Hp.
    destruct (schema_loaded st), (String.eqb s ""); reflexivity.
  - intros st s'. unfold refresh_schema.
    destruct (schema_loaded st); [left; reflexivity|].
    destruct (String.eqb s' ""); [left; reflexivity|].
    destruct (0 <? version (parseCreateSchema fromJson s'))%Z eqn:Ev; [right|left; reflexivity].
    simpl. split; [reflexivity|]. apply Z.ltb_lt; exact Ev.
Qed.

Definition array_only_parser (s : string) : option json :=
  if String.eqb s "[1]" then Some (JArray [JNumber 1]) else None.

Lemma parse_create_schema_fails_closed_witness :
  parseCreateSchema array_only_parser "[1]" = empty_schema.
Proof.
  apply (parse_create_schema_fails_closed array_only_parser "[1]").
  right. exists (JArray [JNumber 1]). split; [reflexivity|discriminate].
Defined.

End SchemaClientClaims.

(* ========================================================================= *)
(** * Further properties of the client code *)

Module SchemaHelperFacts.

Import SchemaClient SchemaHelpers.

Definition dash_to (c : ascii) : ascii := if Ascii.eqb c "_"%char then "-"%char else c.

Lemma replace_underscores_length s :
  String.length (replace_underscores s) = String.length s.
Proof. induction s; simpl; congruence. Qed.

Lemma replace_underscores_get s i :
  String.get i (replace_underscores s) = option_map dash_to (String.get i s).
Proof.
  revert i; induction s as [|c s IH]; intros [|i]; simpl; try reflexivity. apply IH.
Qed.

Lemma dash_to_not_underscore c : dash_to c <> "_"%char.
Proof.
  unfold dash_to. destruct (Ascii.eqb c "_") eqn:E; [discriminate|].
  intros ->. discriminate.
Qed.

Lemma replace_underscores_inj s1 s2 :
  (forall i, String.get i s1 <> Some "-"%char) ->
  (forall i, String.get i s2 <> Some "-"%char) ->
  replace_underscores s1 = replace_underscores s2 -> s1 = s2.
Proof.
  revert s2; induction s1 as [|c1 r1 IH]; intros [|c2 r2] H1 H2 E; simpl in E;
    try discriminate; [reflexivity|].
  injection E as Ec Er.
  assert (c1 = c2) as <-.
  { assert (N1 : c1 <> "-"%char) by (intros ->; apply (H1 0); reflexivity).
    assert (N2 : c2 <> "-"%char) by (intros ->; apply (H2 0); reflexivity).
    destruct (Ascii.eqb c1 "_") eqn:A1, (Ascii.eqb c2 "_") eqn:A2;
      apply Ascii.eqb_eq in A1 || apply Ascii.eqb_neq in A1;
      apply Ascii.eqb_eq in A2 || apply Ascii.eqb_neq in A2;
      congruence. }
  f_equal. apply IH; [intros i; apply (H1 (S i)) | intros i; apply (H2 (S i)) | exact Er].
Qed.

Lemma allOptions_flat_map sch : allOptions sch = flat_map sec_options (sections sch).
Proof.
  unfold allOptions.
  assert (G : forall l acc,
             fold_left (fun result section => (result ++ sec_options section)%list) l acc
             = (acc ++ flat_map sec_options l)%list).
  { induction l as [|s l IH]; intros acc; simpl; [rewrite app_nil_r; reflexivity|].
    rewrite IH, app_assoc. reflexivity. }
  rewrite G. reflexivity.
Qed.

Lemma find_in_options_app key l1 l2 :
  find_in_options key (l1 ++ l2) =
  match find_in_options key l1 with Some o => Some o | None => find_in_options key l2 end.
Proof.
  induction l1 as [|o l1 IH]; simpl; [reflexivity|].
  destruct (String.eqb (opt_key o) key); [reflexivity|exact IH].
Qed.

Lemma find_in_sections_flat key ss :
  find_in_sections key ss = find_in_options key (flat_map sec_options ss).
Proof.
  induction ss as [|s ss IH]; simpl; [reflexivity|].
  rewrite find_in_options_app, IH. reflexivity.
Qed.

Lemma find_in_options_some key l o :
  find_in_options key l = Some o ->
  opt_key o = key /\ exists pre post, l = (pre ++ o :: post)%list /\
                        forall o', In o' pre -> opt_key o' <> key.
Proof.
  induction l as [|x l IH]; simpl; [discriminate|].
  destruct (String.eqb (opt_key x) key) eqn:E.
  - intros H; injection H as <-. apply String.eqb_eq in E.
    split; [exact E|]. exists [], l. split; [reflexivity| intros o' []].
  - intros H. destruct (IH H) as (Hk & pre & post & Hl & Hpre).
    split; [exact Hk|]. exists (x :: pre), post. split; [simpl; congruence|].
    intros o' [<-|Ho']; [apply String.eqb_neq; exact E| apply Hpre; exact Ho'].
Qed.

Lemma find_in_options_none key l :
  find_in_options key l = None <-> forall o, In o l -> opt_key o <> key.
Proof.
  induction l as [|x l IH]; simpl; [split; [intros _ o []|reflexivity]|].
  destruct (String.eqb (opt_key x) key) eqn:E.
  - split; [discriminate|]. intros H. apply String.eqb_eq in E.
    exfalso; apply (H x (or_introl eq_refl) E).
  - rewrite IH. split.
    + intros H o [<-|Ho]; [apply String.eqb_neq; exact E| apply H; exact Ho].
    + intros H o Ho; apply H; right; exact Ho.
Qed.

(** X1: the CLI flag of an option has the key's length, contains no
    underscore, keeps every other character of the key in place, and two
    keys without dashes never get the same flag. *)
Theorem cliFlag_shape o1 o2 :
  String.length (cliFlag o1) = String.length (opt_key o1) /\
  (forall i, String.get i (cliFlag o1) <> Some "_"%char) /\
  (forall i c, String.get i (opt_key o1) = Some c -> c <> "_"%char ->
               String.get i (cliFlag o1) = Some c) /\
  ((forall i, String.get i (opt_key o1) <> Some "-"%char) ->
   (forall i, String.get i (opt_key o2) <> Some "-"%char) ->
   cliFlag o1 = cliFlag o2 -> opt_key o1 = opt_key o2).
Proof.
  unfold cliFlag. split; [apply replace_underscores_length|split; [|split]].
  - intros i. rewrite replace_underscores_get.
    destruct (String.get i (opt_key o1)) as [c|]; simpl; [|discriminate].
    intros H; injection H; apply dash_to_not_underscore.
  - intros i c Hc Hn. rewrite replace_underscores_get, Hc. simpl. unfold dash_to.
    destruct (Ascii.eqb c "_") eqn:E; [apply Ascii.eqb_eq in E; contradiction|reflexivity].
  - apply replace_underscores_inj.
Qed.

(** X2: [CreateSchema::option(key)] returns the first option with that key
    in [allOptions()] order, and returns nothing exactly when no option of
    any section has that key. *)
Theorem CreateSchema_option_first_match sch key :
  (forall o, CreateSchema_option sch key = Some o ->
     opt_key o = key /\
     exists pre post, allOptions sch = (pre ++ o :: post)%list /\
       forall o', In o' pre -> opt_key o' <> key) /\
  (CreateSchema_option sch key = None <->
   forall o, In o (allOptions sch) -> opt_key o <> key).
Proof.
  unfold CreateSchema_option. rewrite allOptions_flat_map, find_in_sections_flat.
  split; [apply find_in_options_some| apply find_in_options_none].
Qed.

(** X3: a reply that parses as a JSON object but whose "version" is
    missing, not a number, or outside the [int] range gives version 0,
    whatever its sections; the settings module's refresh then keeps its
    schema state as it was. *)
Theorem parse_without_valid_version_not_installed (fromJson : string -> option json) s root :
  fromJson s = Some (JObject root) ->
  (forall n, value root "version" = JNumber n -> (n < -2147483648 \/ 2147483647 < n)%Z) ->
  version (parseCreateSchema fromJson s) = 0%Z /\
  length (sections (parseCreateSchema fromJson s)) = length (toArray (value root "sections")) /\
  (forall st, refresh_schema fromJson st s = st).
Proof.
  intros Hj Hv.
  assert (V : version (parseCreateSchema fromJson s) = 0%Z).
  { unfold parseCreateSchema. rewrite Hj. simpl. unfold toInt.
    destruct (value root "version") as [| | |n| | |]; try reflexivity.
    destruct (Hv n eq_refl) as [H|H].
    - destruct (Z.leb_spec (-2147483648) n); [lia|reflexivity].
    - destruct (Z.leb_spec n 2147483647); [lia|].
      rewrite andb_false_r. reflexivity. }
  split; [exact V|split].
  - unfold parseCreateSchema. rewrite Hj. simpl. apply length_map.
  - intros st. unfold refresh_schema. rewrite V.
    destruct (schema_loaded st), (String.eqb s ""); reflexivity.
Qed.

Definition object_parser (s : string) : option json :=
  if String.eqb s "{}" then Some (JObject [("sections", JArray [JObject []])]) else None.

Lemma parse_without_valid_version_not_installed_witness :
  version (parseCreateSchema object_parser "{}") = 0%Z.
Proof.
  apply (parse_without_valid_version_not_installed object_parser "{}"
           [("sections", JArray [JObject []])]); [reflexivity|].
  intros n H; discriminate H.
Defined.

End SchemaHelperFacts.

Module ClientOptionsFacts.

Import Options ClientOptions.

(** X4: [ContainerOptions::toVariantMap] sends a key exactly when its field
    differs from the [ContainerOptions{}] default, and then sends the
    field's value; it sends no other key and no key twice, so a
    default-constructed struct sends an empty map. *)
Theorem toVariantMap_non_defaults o :
  (forall k f, In (k, f) fields ->
     assoc k (toVariantMap o) =
       if value_eqb (f o) (f default_options) then None else Some (f o)) /\
  (forall k, In k (map fst (toVariantMap o)) -> In k (map fst fields)) /\
  NoDup (map fst (toVariantMap o)) /\
  toVariantMap default_options = [].
Proof.
  destruct o as [[] [] [] [] [|c cs] [] []];
    (split; [|split; [|split]]);
    try (intros k f Hin; simpl in Hin;
         repeat (destruct Hin as [Hin|Hin]; [injection Hin as <- <-; reflexivity|]);
         destruct Hin);
    try (intros k Hk; simpl in Hk; simpl;
         repeat (destruct Hk as [Hk|Hk]; [subst k; tauto|]); destruct Hk);
    try reflexivity;
    simpl; repeat constructor; simpl; intuition discriminate.
Qed.

End ClientOptionsFacts.

Module SchemaModelFacts.

Import SchemaClient SchemaHelpers SchemaModels.

Lemma first_some_indices {A B} (l : list A) (f : nat -> option B) (h : A -> option B) :
  (forall i x, nth_error l i = Some x -> f i = h x) ->
  first_some f (seq 0 (length l)) = first_some h l.
Proof.
  revert f; induction l as [|x l IH]; intros f Hf; [reflexivity|].
  cbn [length]. rewrite <- cons_seq, <- seq_shift. cbn [first_some].
  rewrite (Hf 0 x eq_refl).
  destruct (h x); [reflexivity|].
  assert (E : forall m : list nat, first_some f (map S m) = first_some (fun i => f (S i)) m).
  { induction m as [|y m IHm]; simpl; [reflexivity|]. rewrite IHm; reflexivity. }
  rewrite E. apply IH. intros i y Hy. apply (Hf (S i) y). exact Hy.
Qed.

Lemma in_rows {A} (l : list A) i x :
  nth_error l i = Some x ->
  ((Z.of_nat i <? 0)%Z || (rowCount l <=? Z.of_nat i)%Z) = false /\
  nth_error l (Z.to_nat (Z.of_nat i)) = Some x.
Proof.
  intros H. assert (i < length l) by (apply nth_error_Some; congruence).
  unfold rowCount. rewrite Nat2Z.id. split; [|exact H].
  apply orb_false_iff; split; [apply Z.ltb_ge | apply Z.leb_gt]; lia.
Qed.

Lemma option_data_at m i opt :
  nth_error m i = Some opt ->
  option_data m (Z.of_nat i) (UserRole + 1) = QString (opt_key opt) /\
  option_data m (Z.of_nat i) (UserRole + 5) = QDefault (opt_defaultValue opt).
Proof.
  intros H. destruct (in_rows m i opt H) as [B N].
  unfold option_data. rewrite B, N. split; reflexivity.
Qed.

Lemma section_data_at m i sd :
  nth_error m i = Some sd ->
  section_data m (Z.of_nat i) (UserRole + 3) = QOptionsModel (sd_options sd).
Proof.
  intros H. destruct (in_rows m i sd H) as [B N].
  unfold section_data. rewrite B, N. reflexivity.
Qed.

Lemma rowCount_nat {A} (l : list A) : Z.to_nat (rowCount l) = length l.
Proof. unfold rowCount. apply Nat2Z.id. Qed.

Lemma scan_options_find optModel key :
  scan_options optModel key =
  option_map (fun o => QDefault (opt_defaultValue o)) (find_in_options key optModel).
Proof.
  unfold scan_options. rewrite rowCount_nat.
  rewrite (first_some_indices optModel _
             (fun opt => if String.eqb (opt_key opt) key
                         then Some (QDefault (opt_defaultValue opt)) else None)).
  - induction optModel as [|o os IH]; simpl; [reflexivity|].
    destruct (String.eqb (opt_key o) key); [reflexivity|exact IH].
  - intros i x Hx. destruct (option_data_at optModel i x Hx) as [K D].
    rewrite K, D. reflexivity.
Qed.

(** X5: the create page's [getDefaultValue], reading [kcm.schemaModel]
    through the role numbers it hard-codes ([Qt.UserRole + 3] for the
    options model, [+ 1] for the key, [+ 5] for the default), returns for
    a schema installed with [setSchema] exactly the default of the option
    [CreateSchema::option] finds for the key, and [undefined] when it finds
    none. *)
Theorem qml_getDefaultValue_matches_option sch key :
  qml_getDefaultValue (setSchema sch) key =
  option_map (fun o => QDefault (opt_defaultValue o)) (CreateSchema_option sch key).
Proof.
  unfold qml_getDefaultValue, CreateSchema_option. rewrite rowCount_nat.
  rewrite (first_some_indices (setSchema sch) _ (fun sd => scan_options (sd_options sd) key)).
  - unfold setSchema. induction (sections sch) as [|s ss IH]; simpl; [reflexivity|].
    rewrite scan_options_find.
    destruct (find_in_options key (sec_options s)); simpl; [reflexivity|exact IH].
  - intros i x Hx. rewrite (section_data_at _ i x Hx). reflexivity.
Qed.

End SchemaModelFacts.

Module CreatePageStateFacts.

Import CreatePage CreatePageState.

Lemma js_strict_eqb_eq a b : js_strict_eqb a b = true -> a = b.
Proof.
  destruct a, b; simpl; try discriminate; try reflexivity.
  - intros H; apply Bool.eqb_prop in H; congruence.
  - intros H; apply String.eqb_eq in H; congruence.
Qed.

Lemma js_strict_eqb_array l d : js_strict_eqb (JsArray l) d = false.
Proof. destruct d; reflexivity. Qed.

(** The own properties left by [delete obj[k]]. *)
Definition without (k : string) (ps : list (string * jsvalue)) : list (string * jsvalue) :=
  filter (fun '(k0, _) => negb (String.eqb k0 k)) ps.

Lemma assoc_without k k' ps :
  Options.assoc k' (without k ps) = if String.eqb k' k then None else Options.assoc k' ps.
Proof.
  unfold without. induction ps as [|[k0 v0] ps IH]; simpl.
  - destruct (String.eqb k' k); reflexivity.
  - destruct (String.eqb k0 k) eqn:E0; simpl.
    + apply String.eqb_eq in E0; subst k0. rewrite IH.
      destruct (String.eqb k' k) eqn:E; [reflexivity|].
      rewrite String.eqb_sym, E. reflexivity.
    + rewrite IH. destruct (String.eqb k0 k') eqn:E1; [|reflexivity].
      apply String.eqb_eq in E1; subst k0. rewrite E0. reflexivity.
Qed.

Lemma assoc_js_set k k' v ps :
  Options.assoc k' (js_set k v ps) = if String.eqb k' k then Some v else Options.assoc k' ps.
Proof.
  induction ps as [|[k0 v0] ps IH]; simpl.
  - rewrite String.eqb_sym. reflexivity.
  - destruct (String.eqb k0 k) eqn:E0; simpl.
    + apply String.eqb_eq in E0; subst k0. rewrite (String.eqb_sym k k').
      destruct (String.eqb k' k); reflexivity.
    + rewrite IH. destruct (String.eqb k0 k') eqn:E1; [|reflexivity].
      apply String.eqb_eq in E1; subst k0. rewrite E0. reflexivity.
Qed.

Lemma in_without k x v ps : In (x, v) (without k ps) -> In (x, v) ps /\ x <> k.
Proof.
  unfold without. intros H. apply filter_In in H. destruct H as [H E].
  split; [exact H|]. apply negb_true_iff, String.eqb_neq in E. exact E.
Qed.

Lemma in_js_set k v x w ps : In (x, w) (js_set k v ps) -> (x = k /\ w = v) \/ In (x, w) ps.
Proof.
  induction ps as [|[k0 v0] ps IH]; simpl.
  - intros [H|[]]. injection H as <- <-. left; split; reflexivity.
  - destruct (String.eqb k0 k) eqn:E0.
    + apply String.eqb_eq in E0; subst k0. intros [H|H].
      * injection H as <- <-. left; split; reflexivity.
      * right; right; exact H.
    + intros [H|H]; [right; left; exact H|]. destruct (IH H) as [A|A]; [left|right; right]; assumption.
Qed.

Lemma keys_without k ps : NoDup (map fst ps) -> NoDup (map fst (without k ps)).
Proof.
  induction ps as [|[k0 v0] ps IH]; simpl; [intros; constructor|].
  intros H. inversion H as [|? ? Hn Hd]; subst.
  unfold without; simpl. destruct (String.eqb k0 k); simpl; [apply IH; exact Hd|].
  constructor; [|apply IH; exact Hd].
  intros Hin. apply in_map_iff in Hin. destruct Hin as ([x w] & Hx & Hin). simpl in Hx; subst x.
  apply in_without in Hin. apply Hn. apply in_map_iff. exists (k0, w). split; [reflexivity|apply Hin].
Qed.

Lemma keys_js_set k v ps : NoDup (map fst ps) -> NoDup (map fst (js_set k v ps)).
Proof.
  induction ps as [|[k0 v0] ps IH]; simpl; [intros; constructor; [intros []|constructor]|].
  intros H. inversion H as [|? ? Hn Hd]; subst.
  destruct (String.eqb k0 k) eqn:E0; simpl; [exact H|].
  constructor; [|apply IH; exact Hd].
  intros Hin. apply in_map_iff in Hin. destruct Hin as ([x w] & Hx & Hin). simpl in Hx; subst x.
  destruct (in_js_set _ _ _ _ _ Hin) as [[-> _]|Hin'].
  - rewrite String.eqb_refl in E0; discriminate.
  - apply Hn. apply in_map_iff. exists (k0, w). split; [reflexivity|exact Hin'].
Qed.

Lemma key_in_without k x ps : In x (map fst (without k ps)) -> In x (map fst ps).
Proof.
  intros H. apply in_map_iff in H. destruct H as ([y w] & Hy & Hin). simpl in Hy; subst y.
  apply in_without in Hin. apply in_map_iff. exists (x, w). split; [reflexivity|apply Hin].
Qed.

Lemma key_in_js_set k v x ps : In x (map fst (js_set k v ps)) -> x = k \/ In x (map fst ps).
Proof.
  intros H. apply in_map_iff in H. destruct H as ([y w] & Hy & Hin). simpl in Hy; subst y.
  destruct (in_js_set _ _ _ _ _ Hin) as [[-> _]|Hin']; [left; reflexivity|].
  right. apply in_map_iff. exists (x, w). split; [reflexivity|exact Hin'].
Qed.

Lemma without_absent k ps : ~ In k (map fst ps) -> without k ps = ps.
Proof.
  unfold without. induction ps as [|[k0 v0] ps IH]; simpl; [reflexivity|].
  intros H. destruct (String.eqb k0 k) eqn:E.
  - apply String.eqb_eq in E; subst k0. exfalso; apply H; left; reflexivity.
  - simpl. rewrite IH; [reflexivity|]. intros Hin; apply H; right; exact Hin.
Qed.

Lemma js_set_absent k v ps : ~ In k (map fst ps) -> js_set k v ps = (ps ++ [(k, v)])%list.
Proof.
  induction ps as [|[k0 v0] ps IH]; simpl; [reflexivity|].
  intros H. destruct (String.eqb k0 k) eqn:E.
  - apply String.eqb_eq in E; subst k0. exfalso; apply H; left; reflexivity.
  - rewrite IH; [reflexivity|]. intros Hin; apply H; right; exact Hin.
Qed.

Lemma assoc_absent {A} k (ps : list (string * A)) : ~ In k (map fst ps) -> Options.assoc k ps = None.
Proof.
  induction ps as [|[k0 v0] ps IH]; simpl; [reflexivity|].
  intros H. destruct (String.eqb k0 k) eqn:E.
  - apply String.eqb_eq in E; subst k0. exfalso; apply H; left; reflexivity.
  - apply IH. intros Hin; apply H; right; exact Hin.
Qed.

Lemma copy_fold pre ps :
  NoDup (map fst (pre ++ ps)) -> ~ In "__proto__" (map fst ps) ->
  fold_left (fun o '(k, v) => js_assign o k v) ps {| own := pre; proto := ObjectProto |}
  = {| own := (pre ++ ps)%list; proto := ObjectProto |}.
Proof.
  revert pre. induction ps as [|[k v] ps IH]; intros pre Hnd Hp; simpl.
  - rewrite app_nil_r. reflexivity.
  - rewrite map_app in Hnd. simpl in Hnd.
    assert (Hk : ~ In k (map fst pre)).
    { intros Hin. apply (NoDup_remove_2 _ _ _ Hnd). apply in_or_app; left; exact Hin. }
    unfold js_assign at 2. cbn [own proto]. rewrite (assoc_absent k pre Hk).
    assert (Ek : String.eqb k "__proto__" = false).
    { apply String.eqb_neq. intros ->. apply Hp. left; reflexivity. }
    rewrite Ek, (js_set_absent k v pre Hk).
    rewrite IH.
    + rewrite <- app_assoc. reflexivity.
    + rewrite <- app_assoc, map_app. exact Hnd.
    + intros Hin; apply Hp; right; exact Hin.
Qed.

(** [Object.assign({}, ov)] keeps the own properties when their names are
    distinct and none is [__proto__]. *)
Lemma object_assign_copy_id ov :
  NoDup (map fst (own ov)) -> ~ In "__proto__" (map fst (own ov)) ->
  object_assign_copy ov = {| own := own ov; proto := ObjectProto |}.
Proof. intros Hnd Hp. unfold object_assign_copy, empty_object. apply (copy_fold []); assumption. Qed.

Lemma setOptionValue_shape sm ov key v :
  NoDup (map fst (own ov)) -> ~ In "__proto__" (map fst (own ov)) ->
  setOptionValue sm ov key v =
  if js_strict_eqb v (getDefaultValue sm key) then {| own := without key (own ov); proto := ObjectProto |}
  else if String.eqb key "__proto__" then
    match v with
    | JsArray l => {| own := own ov; proto := ArrayProto l |}
    | _ => {| own := own ov; proto := ObjectProto |}
    end
  else {| own := js_set key v (own ov); proto := ObjectProto |}.
Proof.
  intros Hnd Hp. unfold setOptionValue. rewrite object_assign_copy_id by assumption.
  destruct (js_strict_eqb v (getDefaultValue sm key)); [reflexivity|].
  unfold js_assign. cbn [own proto].
  destruct (String.eqb key "__proto__") eqn:E.
  - apply String.eqb_eq in E; subst key. rewrite (assoc_absent _ _ Hp). simpl.
    destruct v; reflexivity.
  - destruct (Options.assoc key (own ov)); reflexivity.
Qed.

(** What every [optionValues] the page builds keeps: distinct own names,
    no own [__proto__], and no own value [===] to its schema default. *)
Definition page_inv (sm : schema_model) (ov : option_values) : Prop :=
  NoDup (map fst (own ov)) /\ ~ In "__proto__" (map fst (own ov)) /\
  (forall k v, In (k, v) (own ov) -> js_strict_eqb v (getDefaultValue sm k) = false).

Lemma reachable_inv sm ov : reachable sm ov -> page_inv sm ov.
Proof.
  induction 1 as [|ov key value _ (Hnd & Hp & Hv)].
  - split; [constructor|split; [intros []|intros k v []]].
  - rewrite setOptionValue_shape by assumption.
    destruct (js_strict_eqb value (getDefaultValue sm key)) eqn:E.
    + split; [apply keys_without; exact Hnd|split].
      * intros Hin. apply Hp, (key_in_without _ _ _ Hin).
      * intros k v Hin. apply in_without in Hin. apply Hv, Hin.
    + destruct (String.eqb key "__proto__") eqn:Ek.
      * destruct value; (split; [exact Hnd|split; [exact Hp|exact Hv]]).
      * split; [apply keys_js_set; exact Hnd|split].
        -- intros Hin. destruct (key_in_js_set _ _ _ _ Hin) as [Hx|Hx]; [|exact (Hp Hx)].
           rewrite <- Hx, String.eqb_refl in Ek. discriminate.
        -- intros k v Hin. destruct (in_js_set _ _ _ _ _ Hin) as [[-> ->]|Hin'];
             [exact E| apply Hv; exact Hin'].
Qed.

Lemma read_after_set B sm ov key v :
  page_inv sm ov -> key <> "__proto__" ->
  getOptionValue B sm (setOptionValue sm ov key v) key =
  if js_strict_eqb v (getDefaultValue sm key) && in_names key (object_prototype_names B)
  then RBuiltin ("Object.prototype." ++ key) else RVal v.
Proof.
  intros (Hnd & Hp & _) Hk. apply String.eqb_neq in Hk.
  rewrite setOptionValue_shape by assumption. rewrite Hk.
  unfold getOptionValue, js_in, js_get.
  destruct (js_strict_eqb v (getDefaultValue sm key)) eqn:E; cbn [own proto andb].
  - rewrite assoc_without, String.eqb_refl. unfold proto_has, proto_get. rewrite Hk. simpl orb.
    destruct (in_names key (object_prototype_names B)); [reflexivity|].
    f_equal. symmetry. apply js_strict_eqb_eq. exact E.
  - rewrite assoc_js_set, String.eqb_refl. reflexivity.
Qed.

Lemma read_other_after_set B sm ov key v k' :
  page_inv sm ov -> key <> "__proto__" -> proto ov = ObjectProto -> k' <> key ->
  getOptionValue B sm (setOptionValue sm ov key v) k' = getOptionValue B sm ov k'.
Proof.
  intros (Hnd & Hp & _) Hk Hpo Hk'. apply String.eqb_neq in Hk, Hk'.
  rewrite setOptionValue_shape by assumption. rewrite Hk.
  unfold getOptionValue, js_in, js_get. rewrite Hpo.
  destruct (js_strict_eqb v (getDefaultValue sm key)); cbn [own proto].
  - rewrite assoc_without, Hk'. reflexivity.
  - rewrite assoc_js_set, Hk'. reflexivity.
Qed.

Lemma array_index_proto n : array_index "__proto__" n = None.
Proof.
  unfold array_index. induction (seq 0 n) as [|i is IH]; [reflexivity|].
  change (find (fun i => String.eqb "__proto__" (NilEmpty.string_of_uint (Nat.to_uint i))) (i :: is))
    with (if String.eqb "__proto__" (NilEmpty.string_of_uint (Nat.to_uint i)) then Some i
          else find (fun i => String.eqb "__proto__" (NilEmpty.string_of_uint (Nat.to_uint i))) is).
  rewrite IH. destruct (Nat.to_uint i); reflexivity.
Qed.

Lemma substring_whole s : substring 0 (String.length s) s = s.
Proof. induction s; simpl; congruence. Qed.

Lemma replace_file_scheme p : replace_first "file://" "" ("file://" ++ p) = p.
Proof. simpl. rewrite Nat.sub_0_r. destruct p; apply substring_whole. Qed.

Definition mounts_page : schema_model :=
  [[{| opt_key := "host_rootfs"; opt_default := JsBool true |};
    {| opt_key := "custom_mounts"; opt_default := JsArray [] |}]].

(** X6: for a key other than [__proto__], after [setOptionValue(key,
    value)] the page reads back [value], except when [value] is the schema
    default and [key] names an [Object.prototype] member such as
    [toString]: the key is then deleted and the read gives the inherited
    member. While [optionValues] has [Object.prototype] as its prototype,
    every other key reads as before. *)
Theorem setOptionValue_read_back B sm ov key v :
  reachable sm ov -> key <> "__proto__" ->
  getOptionValue B sm (setOptionValue sm ov key v) key =
    (if js_strict_eqb v (getDefaultValue sm key) && in_names key (object_prototype_names B)
     then RBuiltin ("Object.prototype." ++ key) else RVal v) /\
  (proto ov = ObjectProto -> forall k', k' <> key ->
     getOptionValue B sm (setOptionValue sm ov key v) k' = getOptionValue B sm ov k').
Proof.
  intros Hr Hk. pose proof (reachable_inv _ _ Hr) as Hi. split.
  - apply read_after_set; assumption.
  - intros Hpo k' Hk'. apply read_other_after_set; assumption.
Qed.

Lemma setOptionValue_read_back_witness :
  getOptionValue ecmascript_2017 mounts_page
    (setOptionValue mounts_page empty_object "host_rootfs" (JsBool false)) "host_rootfs"
  = RVal (JsBool false).
Proof.
  destruct (setOptionValue_read_back ecmascript_2017 mounts_page empty_object "host_rootfs"
              (JsBool false) (reach_init _)) as [H _]; [discriminate|].
  rewrite H. reflexivity.
Defined.

(** X7: every [optionValues] the page builds from [{}] through
    [setOptionValue] has each own key at most once and holds no own value
    that is [===] to its key's schema default, so only non-default values
    reach [kcm.createContainer]. *)
Theorem optionValues_only_non_defaults sm ov :
  reachable sm ov ->
  NoDup (map fst (own ov)) /\
  (forall k v, In (k, v) (own ov) -> js_strict_eqb v (getDefaultValue sm k) = false).
Proof.
  intros Hr. destruct (reachable_inv _ _ Hr) as (Hnd & _ & Hv). split; assumption.
Qed.

Lemma optionValues_only_non_defaults_witness :
  NoDup (map fst (own (setOptionValue [] empty_object "custom_mounts" (JsArray [JsStr "/data"])))).
Proof.
  apply (optionValues_only_non_defaults [] _).
  apply reach_set, reach_init.
Defined.

(** X8: for an option key other than [__proto__] whose current value is an
    array, or undefined, accepting the folder dialog appends the chosen
    folder's path with its ["file://"] prefix removed; while [optionValues]
    has [Object.prototype] as its prototype every other option reads as
    before. With no option key set it changes nothing. *)
Theorem folderAccepted_appends_path B sm ov key p l :
  reachable sm ov -> key <> "" -> key <> "__proto__" ->
  getOptionValue B sm ov key = RVal (JsArray l) \/
  (getOptionValue B sm ov key = RVal JsUndefined /\ l = []) ->
  folderAccepted B sm ov "" ("file://" ++ p) = Some ov /\
  exists ov', folderAccepted B sm ov key ("file://" ++ p) = Some ov' /\
    getOptionValue B sm ov' key = RVal (JsArray (l ++ [JsStr p])) /\
    (proto ov = ObjectProto -> forall k', k' <> key ->
       getOptionValue B sm ov' k' = getOptionValue B sm ov k').
Proof.
  intros Hr Hk Hk2 Hcur. pose proof (reachable_inv _ _ Hr) as Hi. split; [reflexivity|].
  unfold folderAccepted.
  assert (Nat.ltb 0 (String.length key) = true) as ->.
  { destruct key; [contradiction|reflexivity]. }
  rewrite replace_file_scheme.
  assert (concat_read (getOptionValue B sm ov key) p = Some (JsArray (l ++ [JsStr p]))) as ->.
  { destruct Hcur as [-> | [-> ->]]; reflexivity. }
  eexists; split; [reflexivity|]. split.
  - rewrite read_after_set by assumption. rewrite js_strict_eqb_array. reflexivity.
  - intros Hpo k' Hk'. apply read_other_after_set; assumption.
Qed.

Lemma folderAccepted_appends_path_witness :
  exists ov', folderAccepted ecmascript_2017 mounts_page empty_object "custom_mounts"
                ("file://" ++ "/srv/data") = Some ov'
    /\ getOptionValue ecmascript_2017 mounts_page ov' "custom_mounts" = RVal (JsArray [JsStr "/srv/data"]).
Proof.
  destruct (folderAccepted_appends_path ecmascript_2017 mounts_page empty_object "custom_mounts"
              "/srv/data" [] (reach_init _))
    as [_ (ov' & H & G & _)]; [discriminate|discriminate| left; reflexivity |].
  exists ov'. split; [exact H| exact G].
Defined.

(** X16: [setOptionValue("__proto__", value)] never stores an own
    [__proto__]: the own options stay as they were, an array value becomes
    the prototype of [optionValues] (and reads back), any other value is
    dropped and the key reads as [Object.prototype]. Setting any other key
    gives [optionValues] [Object.prototype] as its prototype again. *)
Theorem proto_key_never_stored B sm ov v :
  reachable sm ov ->
  own (setOptionValue sm ov "__proto__" v) = own ov /\
  proto (setOptionValue sm ov "__proto__" v) =
    match v with JsArray l => ArrayProto l | _ => ObjectProto end /\
  getOptionValue B sm (setOptionValue sm ov "__proto__" v) "__proto__" =
    match v with JsArray l => RVal (JsArray l) | _ => RBuiltin "Object.prototype" end /\
  (forall k w, k <> "__proto__" -> proto (setOptionValue sm ov k w) = ObjectProto).
Proof.
  intros Hr. destruct (reachable_inv _ _ Hr) as (Hnd & Hp & _).
  assert (Hs : setOptionValue sm ov "__proto__" v =
               {| own := own ov; proto := match v with JsArray l => ArrayProto l | _ => ObjectProto end |}).
  { rewrite setOptionValue_shape by assumption.
    destruct v as [| b | s | l];
      [ destruct (js_strict_eqb JsUndefined (getDefaultValue sm "__proto__"))
      | destruct (js_strict_eqb (JsBool b) (getDefaultValue sm "__proto__"))
      | destruct (js_strict_eqb (JsStr s) (getDefaultValue sm "__proto__"))
      | rewrite js_strict_eqb_array ];
      simpl; try reflexivity; rewrite without_absent by exact Hp; reflexivity. }
  rewrite Hs. cbn [own proto]. split; [reflexivity|split; [reflexivity|split]].
  - unfold getOptionValue, js_in, js_get. cbn [own proto]. rewrite (assoc_absent _ _ Hp).
    destruct v as [| b | s | l]; try reflexivity.
    unfold proto_has, proto_get. rewrite array_index_proto. reflexivity.
  - intros k w Hk. apply String.eqb_neq in Hk. rewrite setOptionValue_shape by assumption.
    rewrite Hk. destruct (js_strict_eqb w (getDefaultValue sm k)); reflexivity.
Qed.

Lemma proto_key_never_stored_witness :
  getOptionValue ecmascript_2017 mounts_page
    (setOptionValue mounts_page empty_object "__proto__" (JsStr "x")) "__proto__"
  = RBuiltin "Object.prototype".
Proof.
  destruct (proto_key_never_stored ecmascript_2017 mounts_page empty_object (JsStr "x")
              (reach_init _)) as (_ & _ & H & _).
  exact H.
Defined.

(** X17: accepting the folder dialog for an option that has no value set
    and whose key [optionValues] inherits from [Object.prototype] (such as
    [toString] or [hasOwnProperty]) throws a [TypeError]: the inherited
    member has no [concat]. *)
Theorem folderAccepted_inherited_throws B sm ov key folder :
  proto ov = ObjectProto -> key <> "" -> inherited B ov key = true ->
  folderAccepted B sm ov key folder = None.
Proof.
  intros Hpo Hk Hi. unfold folderAccepted.
  assert (Nat.ltb 0 (String.length key) = true) as ->.
  { destruct key; [contradiction|reflexivity]. }
  destruct (CreatePageFacts.getOptionValue_inherited_object B sm ov key Hpo Hi) as [path ->].
  reflexivity.
Qed.

Definition toString_page : schema_model :=
  [[{| opt_key := "toString"; opt_default := JsArray [] |}]].

Lemma folderAccepted_inherited_throws_witness :
  folderAccepted ecmascript_2017 toString_page empty_object "toString" "file:///srv/data" = None.
Proof.
  apply (folderAccepted_inherited_throws ecmascript_2017 toString_page empty_object "toString");
    [reflexivity|discriminate|reflexivity].
Defined.

End CreatePageStateFacts.

Module HookFacts.

Import NvidiaHook.

Lemma version_match_eqb (s a b c : string) :
  match s with "0" => a | "1" => b | _ => c end =
  if String.eqb s "0" then a else if String.eqb s "1" then b else c.
Proof.
  destruct s as [|ch [|ch2 r]];
    [reflexivity| destruct ch as [[] [] [] [] [] [] [] []]; reflexivity
    | destruct ch as [[] [] [] [] [] [] [] []]; reflexivity].
Qed.

Definition with_hook_type (e : env) (t : option string) : env :=
  {| LXC_HOOK_VERSION := LXC_HOOK_VERSION e; arg3 := arg3 e; LXC_HOOK_TYPE := t;
     LXC_ROOTFS_MOUNT := LXC_ROOTFS_MOUNT e; has_nvidia_cli := has_nvidia_cli e;
     dev_nvidia0 := dev_nvidia0 e; ldconfig_real := ldconfig_real e;
     ldconfig := ldconfig e; apparmor := apparmor e |}.

Definition with_arg3 (e : env) (a : option string) : env :=
  {| LXC_HOOK_VERSION := LXC_HOOK_VERSION e; arg3 := a; LXC_HOOK_TYPE := LXC_HOOK_TYPE e;
     LXC_ROOTFS_MOUNT := LXC_ROOTFS_MOUNT e; has_nvidia_cli := has_nvidia_cli e;
     dev_nvidia0 := dev_nvidia0 e; ldconfig_real := ldconfig_real e;
     ldconfig := ldconfig e; apparmor := apparmor e |}.

(** X9: with [LXC_HOOK_VERSION] other than 0 or 1 (unset or empty counts
    as 0) the hook exits 0 without effect whatever else is set; under
    version 0 the hook type is read from the third argument only, so
    [LXC_HOOK_TYPE] cannot change the outcome, and under version 1 from
    [LXC_HOOK_TYPE] only, so the third argument cannot. *)
Theorem hook_version_selects_type e :
  (or_default (LXC_HOOK_VERSION e) "0" <> "0" ->
   or_default (LXC_HOOK_VERSION e) "0" <> "1" -> run e = Exit 0 []) /\
  (or_default (LXC_HOOK_VERSION e) "0" = "0" -> forall t, run (with_hook_type e t) = run e) /\
  (or_default (LXC_HOOK_VERSION e) "0" = "1" -> forall a, run (with_arg3 e a) = run e).
Proof.
  split; [|split].
  - intros H0 H1. unfold run, hook_type. rewrite version_match_eqb.
    apply String.eqb_neq in H0, H1. rewrite H0, H1. reflexivity.
  - intros H t. unfold run, hook_type. simpl. rewrite H. reflexivity.
  - intros H a. unfold run, hook_type. simpl. rewrite H. reflexivity.
Qed.

Definition six_flags : list string :=
  ["--no-cgroups"; "--no-devbind"; "--device=all"; "--compute"; "--utility"; "--graphics"].

(** X10: when the hook hands over to nvidia-container-cli, the arguments
    are "configure", the six fixed flags, an [--ldconfig=@] flag naming
    ldconfig.real when found, else ldconfig when found, else no such flag,
    and last the container rootfs from [LXC_ROOTFS_MOUNT]; the AppArmor
    transition is made exactly when AppArmor is present. Whenever the hook
    exits 0 it has made no change at all and one of its three checks
    failed. *)
Theorem hook_exec_arguments e :
  (forall prog args effs, run e = Exec prog args effs ->
     exists root flags,
       LXC_ROOTFS_MOUNT e = Some root /\
       args = ("configure" :: six_flags ++ flags ++ [root])%list /\
       (forall p, ldconfig_real e = Some p -> p <> "" -> flags = ["--ldconfig=@" ++ p]) /\
       (forall q, ldconfig_real e = None -> ldconfig e = Some q -> q <> "" ->
                  flags = ["--ldconfig=@" ++ q]) /\
       (ldconfig_real e = None -> ldconfig e = None -> flags = []) /\
       (effs = [ChangeProfileUnconfined] <-> apparmor e = true) /\
       (effs = [] <-> apparmor e = false)) /\
  (forall effs, run e = Exit 0 effs ->
     effs = [] /\
     (hook_type e <> "mount" \/ has_nvidia_cli e = false \/ dev_nvidia0 e = false)).
Proof.
  unfold run. split.
  - intros prog args effs.
    destruct (String.eqb (hook_type e) "mount"); simpl; [|discriminate].
    destruct (has_nvidia_cli e); simpl; [|discriminate].
    destruct (dev_nvidia0 e); simpl; [|discriminate].
    destruct (LXC_ROOTFS_MOUNT e) as [root|]; [|discriminate].
    intros H; injection H as <- <- <-.
    exists root, (if String.eqb (ldconfig_path e) "" then [] else ["--ldconfig=@" ++ ldconfig_path e]).
    split; [reflexivity|]. split; [unfold configure_args, six_flags; simpl; reflexivity|].
    unfold ldconfig_path. split; [|split; [|split]].
    + intros p -> Hp. apply String.eqb_neq in Hp. rewrite Hp. reflexivity.
    + intros q -> -> Hq. apply String.eqb_neq in Hq. rewrite Hq. reflexivity.
    + intros -> ->. reflexivity.
    + destruct (apparmor e); split; (split; [intros H; try discriminate; reflexivity|
                                            intros H; try discriminate; reflexivity]).
  - intros effs. destruct (String.eqb (hook_type e) "mount") eqn:Et; simpl.
    + destruct (has_nvidia_cli e) eqn:Ec; simpl.
      * destruct (dev_nvidia0 e) eqn:Ed; simpl.
        -- destruct (LXC_ROOTFS_MOUNT e); discriminate.
        -- intros H; injection H as <-. split; [reflexivity|right; right; reflexivity].
      * intros H; injection H as <-. split; [reflexivity|right; left; reflexivity].
    + intros H; injection H as <-. split; [reflexivity|left].
      apply String.eqb_neq; exact Et.
Qed.

Definition nvidia_host : env :=
  {| LXC_HOOK_VERSION := Some "1"; arg3 := None; LXC_HOOK_TYPE := Some "mount";
     LXC_ROOTFS_MOUNT := Some "/var/lib/incus/containers/dev/rootfs";
     has_nvidia_cli := true; dev_nvidia0 := true;
     ldconfig_real := Some "/sbin/ldconfig.real"; ldconfig := Some "/sbin/ldconfig";
     apparmor := true |}.

Lemma hook_exec_arguments_witness :
  exists root flags, LXC_ROOTFS_MOUNT nvidia_host = Some root /\
    flags = ["--ldconfig=@/sbin/ldconfig.real"].
Proof.
  destruct (proj1 (hook_exec_arguments nvidia_host) _ _ _ eq_refl)
    as (root & flags & Hr & _ & Hf & _).
  exists root, flags. split; [exact Hr|]. apply Hf; [reflexivity|discriminate].
Defined.

End HookFacts.

Module KcmFacts.

Import Kcm.

Section Fields.

Context {C : Type}.

Lemma emit_fields (s : signal) (st : kcm C) :
  m_loading (emit s st) = m_loading st /\ m_statusMessage (emit s st) = m_statusMessage st /\
  m_defaultImage (emit s st) = m_defaultImage st /\ connected (emit s st) = connected st /\
  containers (emit s st) = containers st /\ schema (emit s st) = schema st /\
  signals (emit s st) = (signals st ++ [s])%list /\ calls (emit s st) = calls st.
Proof. repeat split. Qed.

Lemma call_fields (c : client_call) (st : kcm C) :
  m_loading (call c st) = m_loading st /\ m_statusMessage (call c st) = m_statusMessage st /\
  m_defaultImage (call c st) = m_defaultImage st /\ connected (call c st) = connected st /\
  containers (call c st) = containers st /\ schema (call c st) = schema st /\
  signals (call c st) = signals st /\ calls (call c st) = (calls st ++ [c])%list.
Proof. repeat split. Qed.

Lemma setLoading_fields (st : kcm C) b :
  m_loading (setLoading st b) = b /\ m_statusMessage (setLoading st b) = m_statusMessage st /\
  m_defaultImage (setLoading st b) = m_defaultImage st /\ connected (setLoading st b) = connected st /\
  containers (setLoading st b) = containers st /\ schema (setLoading st b) = schema st /\
  signals (setLoading st b) =
    (signals st ++ (if Bool.eqb (m_loading st) b then [] else [LoadingChanged]))%list /\
  calls (setLoading st b) = calls st.
Proof.
  unfold setLoading. destruct (Bool.eqb (m_loading st) b) eqn:E.
  - apply Bool.eqb_prop in E. rewrite app_nil_r. repeat split; congruence.
  - repeat split.
Qed.

Lemma setStatusMessage_fields (st : kcm C) m :
  m_loading (setStatusMessage st m) = m_loading st /\ m_statusMessage (setStatusMessage st m) = m /\
  m_defaultImage (setStatusMessage st m) = m_defaultImage st /\
  connected (setStatusMessage st m) = connected st /\
  containers (setStatusMessage st m) = containers st /\ schema (setStatusMessage st m) = schema st /\
  signals (setStatusMessage st m) =
    (signals st ++ (if String.eqb (m_statusMessage st) m then [] else [StatusMessageChanged]))%list /\
  calls (setStatusMessage st m) = calls st.
Proof.
  unfold setStatusMessage. destruct (String.eqb (m_statusMessage st) m) eqn:E.
  - apply String.eqb_eq in E. rewrite app_nil_r. repeat split; congruence.
  - repeat split.
Qed.

Lemma setContainers_fields (cs : list C) (st : kcm C) :
  m_loading (setContainers cs st) = m_loading st /\
  m_statusMessage (setContainers cs st) = m_statusMessage st /\
  m_defaultImage (setContainers cs st) = m_defaultImage st /\
  connected (setContainers cs st) = connected st /\
  containers (setContainers cs st) = cs /\ schema (setContainers cs st) = schema st /\
  signals (setContainers cs st) = (signals st ++ [CountChanged])%list /\
  calls (setContainers cs st) = calls st.
Proof. repeat split. Qed.

Lemma set_schema_fields s (st : kcm C) :
  m_loading (set_schema s st) = m_loading st /\
  m_statusMessage (set_schema s st) = m_statusMessage st /\
  m_defaultImage (set_schema s st) = m_defaultImage st /\
  connected (set_schema s st) = connected st /\
  containers (set_schema s st) = containers st /\ schema (set_schema s st) = s /\
  signals (set_schema s st) = signals st /\ calls (set_schema s st) = calls st.
Proof. repeat split. Qed.

Lemma set_default_image_fields img (st : kcm C) :
  m_loading (set_default_image img st) = m_loading st /\
  m_statusMessage (set_default_image img st) = m_statusMessage st /\
  m_defaultImage (set_default_image img st) = img /\
  connected (set_default_image img st) = connected st /\
  containers (set_default_image img st) = containers st /\
  schema (set_default_image img st) = schema st /\
  signals (set_default_image img st) = (signals st ++ [DefaultImageChanged])%list /\
  calls (set_default_image img st) = calls st.
Proof. repeat split. Qed.

End Fields.

(** Rewrites every field read of [emit], [call], [setLoading] and
    [setStatusMessage] into the fields of the state before. *)
Ltac kcm_fields :=
  repeat match goal with
  | |- context [?f (emit ?s ?st)] =>
      let H := fresh in pose proof (emit_fields s st) as H;
      destruct H as (? & ? & ? & ? & ? & ? & ? & ?);
      match goal with E : f (emit s st) = _ |- _ => rewrite E end
  | |- context [?f (call ?c ?st)] =>
      let H := fresh in pose proof (call_fields c st) as H;
      destruct H as (? & ? & ? & ? & ? & ? & ? & ?);
      match goal with E : f (call c st) = _ |- _ => rewrite E end
  | |- context [?f (setLoading ?st ?b)] =>
      let H := fresh in pose proof (setLoading_fields st b) as H;
      destruct H as (? & ? & ? & ? & ? & ? & ? & ?);
      match goal with E : f (setLoading st b) = _ |- _ => rewrite E end
  | |- context [?f (setStatusMessage ?st ?m)] =>
      let H := fresh in pose proof (setStatusMessage_fields st m) as H;
      destruct H as (? & ? & ? & ? & ? & ? & ? & ?);
      match goal with E : f (setStatusMessage st m) = _ |- _ => rewrite E end
  | |- context [?f (setContainers ?cs ?st)] =>
      let H := fresh in pose proof (setContainers_fields cs st) as H;
      destruct H as (? & ? & ? & ? & ? & ? & ? & ?);
      match goal with E : f (setContainers cs st) = _ |- _ => rewrite E end
  | |- context [?f (set_schema ?s ?st)] =>
      let H := fresh in pose proof (set_schema_fields s st) as H;
      destruct H as (? & ? & ? & ? & ? & ? & ? & ?);
      match goal with E : f (set_schema s st) = _ |- _ => rewrite E end
  | |- context [?f (set_default_image ?i ?st)] =>
      let H := fresh in pose proof (set_default_image_fields i st) as H;
      destruct H as (? & ? & ? & ? & ? & ? & ? & ?);
      match goal with E : f (set_default_image i st) = _ |- _ => rewrite E end
  end.

(** X11: [createContainer] with an empty name makes no daemon call and
    leaves the loading flag as it was; it shows "Container name is
    required." and emits [operationFailed] with that message last. *)
Theorem createContainer_requires_name {C} fromJson (rep : refresh_replies C) result image options
    (st : kcm C) :
  calls (createContainer fromJson rep result "" image options st) = calls st /\
  m_loading (createContainer fromJson rep result "" image options st) = m_loading st /\
  m_statusMessage (createContainer fromJson rep result "" image options st) = name_required /\
  exists pre, signals (createContainer fromJson rep result "" image options st)
              = (signals st ++ pre ++ [OperationFailed name_required])%list /\
              (pre = [] \/ pre = [StatusMessageChanged]).
Proof.
  unfold createContainer. simpl String.eqb. cbv iota beta.
  kcm_fields. split; [reflexivity|split; [reflexivity|split; [reflexivity|]]].
  eexists. rewrite <- app_assoc. split; [reflexivity|].
  destruct (String.eqb (m_statusMessage st) name_required); [left|right]; reflexivity.
Qed.

Section Refresh.

Context {C : Type} (fromJson : string -> option SchemaClient.json).

Lemma refresh_disconnected (rep : refresh_replies C) (st : kcm C) :
  connected st = false ->
  m_loading (refresh fromJson rep st) = m_loading st /\
  m_statusMessage (refresh fromJson rep st) = cannot_connect /\
  calls (refresh fromJson rep st) = calls st /\
  containers (refresh fromJson rep st) = containers st /\
  schema (refresh fromJson rep st) = schema st /\
  connected (refresh fromJson rep st) = connected st.
Proof.
  intros Hc. unfold refresh. rewrite Hc. cbn [negb]. kcm_fields. repeat split; exact Hc.
Qed.

Lemma refresh_connected (rep : refresh_replies C) (st : kcm C) :
  connected st = true ->
  m_loading (refresh fromJson rep st) = false /\
  m_statusMessage (refresh fromJson rep st) = "" /\
  containers (refresh fromJson rep st) = r_containers rep /\
  m_defaultImage (refresh fromJson rep st) = r_default_image rep /\
  calls (refresh fromJson rep st) =
    (calls st ++ ListContainers ::
       (if SchemaClient.schema_loaded (schema st) then [] else [GetCreateSchema]) ++ [GetConfig])%list /\
  schema (refresh fromJson rep st) =
    (if SchemaClient.schema_loaded (schema st) then schema st
     else SchemaClient.refresh_schema fromJson (schema st) (r_schemaJson rep)) /\
  connected (refresh fromJson rep st) = connected st.
Proof.
  intros Hc. unfold refresh. rewrite Hc. cbn [negb]. cbv zeta. kcm_fields.
  destruct (SchemaClient.schema_loaded (schema st)) eqn:Hl; kcm_fields;
  match goal with |- context [if String.eqb ?a ?b then _ else _] =>
    destruct (String.eqb a b) eqn:Hd end; kcm_fields;
  try (apply String.eqb_eq in Hd);
  (split; [reflexivity|]); (split; [reflexivity|]); (split; [reflexivity|]);
  (split; [try exact Hd; reflexivity|]);
  (split; [rewrite <- !app_assoc; reflexivity|]); split; (reflexivity || exact Hc).
Qed.

Lemma refresh_signals (rep : refresh_replies C) (st : kcm C) :
  exists t, signals (refresh fromJson rep st) = (signals st ++ t)%list.
Proof.
  unfold refresh. destruct (connected st); cbn [negb]; cbv zeta; kcm_fields.
  - destruct (SchemaClient.schema_loaded (schema st)); kcm_fields;
    match goal with |- context [if String.eqb ?a ?b then _ else _] =>
      destruct (String.eqb a b) end; kcm_fields;
    eexists; rewrite <- !app_assoc; reflexivity.
  - eexists; reflexivity.
Qed.

Lemma action_prefix (st : kcm C) c msg :
  calls (call c (setStatusMessage (setLoading st true) msg)) = (calls st ++ [c])%list /\
  connected (call c (setStatusMessage (setLoading st true) msg)) = connected st /\
  schema (call c (setStatusMessage (setLoading st true) msg)) = schema st /\
  m_loading (call c (setStatusMessage (setLoading st true) msg)) = true /\
  exists pre, signals (call c (setStatusMessage (setLoading st true) msg)) = (signals st ++ pre)%list /\
    forall s, In s pre -> s = LoadingChanged \/ s = StatusMessageChanged.
Proof.
  kcm_fields. do 4 (split; [reflexivity|]).
  eexists. rewrite <- app_assoc. split; [reflexivity|].
  intros s Hs. apply in_app_iff in Hs.
  destruct Hs as [Hs|Hs];
    repeat match goal with H : In _ (if ?b then _ else _) |- _ => destruct b; simpl in H end;
    simpl in Hs; intuition (subst; auto).
Qed.

Lemma on_result_failure (rep : refresh_replies C) created result (st : kcm C) :
  success result = false ->
  m_loading (on_result fromJson rep created result st) = false /\
  m_statusMessage (on_result fromJson rep created result st) = error result /\
  calls (on_result fromJson rep created result st) = calls st /\
  exists pre, signals (on_result fromJson rep created result st)
              = (signals st ++ pre ++ [OperationFailed (error result)])%list /\
    forall s, In s pre -> s = LoadingChanged \/ s = StatusMessageChanged.
Proof.
  intros Hs. unfold on_result. rewrite Hs. cbv beta iota zeta. kcm_fields.
  do 3 (split; [reflexivity|]).
  exists ((if String.eqb (m_statusMessage st) (error result) then [] else [StatusMessageChanged])
          ++ (if Bool.eqb (m_loading st) false then [] else [LoadingChanged]))%list.
  rewrite <- !app_assoc. split; [reflexivity|].
  intros s Hin. apply in_app_iff in Hin.
  destruct Hin as [Hin|Hin];
    repeat match goal with H : In _ (if ?b then _ else _) |- _ => destruct b; simpl in H end;
    simpl in Hin; intuition (subst; auto).
Qed.

End Refresh.

(** The daemon call [c] was the only one made, and the user sees [err]:
    loading is off, the status message is [err], and the last signal is
    [operationFailed(err)], after at most loading and status-message
    change notifications. *)
Definition reports_failure {C} (st st' : kcm C) (c : client_call) (err : string) : Prop :=
  m_loading st' = false /\ m_statusMessage st' = err /\
  calls st' = (calls st ++ [c])%list /\
  exists pre, signals st' = (signals st ++ pre ++ [OperationFailed err])%list /\
              forall s, In s pre -> s = LoadingChanged \/ s = StatusMessageChanged.

Lemma reports_failure_of {C} fromJson (rep : refresh_replies C) created result (st : kcm C) c msg :
  success result = false ->
  reports_failure st
    (on_result fromJson rep created result (call c (setStatusMessage (setLoading st true) msg)))
    c (error result).
Proof.
  intros Hs.
  destruct (action_prefix fromJson st c msg) as (Hc & _ & _ & _ & pre1 & Hs1 & Hp1).
  destruct (on_result_failure fromJson rep created result
              (call c (setStatusMessage (setLoading st true) msg)) Hs)
    as (Hl & Hm & Hc2 & pre2 & Hs2 & Hp2).
  split; [exact Hl|split; [exact Hm|split; [rewrite Hc2; exact Hc|]]].
  exists (pre1 ++ pre2)%list. split.
  - rewrite Hs2, Hs1. rewrite <- !app_assoc. reflexivity.
  - intros s Hin. apply in_app_iff in Hin. destruct Hin; [apply Hp1|apply Hp2]; assumption.
Qed.

(** X12: when the daemon reports failure for a create (with a non-empty
    name), delete, start or stop, the module has made that one call and no
    refresh, turns loading off, shows the daemon's error and emits
    [operationFailed] with it as its last signal. *)
Theorem action_failure_reported {C} fromJson (rep : refresh_replies C) result (st : kcm C) :
  success result = false ->
  (forall name image options, name <> "" ->
     reports_failure st (createContainer fromJson rep result name image options st)
       (CreateCall name image options) (error result)) /\
  (forall name, reports_failure st (deleteContainer fromJson rep result name st)
                  (DeleteCall name true) (error result)) /\
  (forall name, reports_failure st (startContainer fromJson rep result name st)
                  (StartCall name) (error result)) /\
  (forall name, reports_failure st (stopContainer fromJson rep result name st)
                  (StopCall name) (error result)).
Proof.
  intros Hs. split; [|split; [|split]].
  - intros name image options Hn. unfold createContainer.
    apply String.eqb_neq in Hn. rewrite Hn. apply reports_failure_of, Hs.
  - intros name. apply reports_failure_of, Hs.
  - intros name. apply reports_failure_of, Hs.
  - intros name. apply reports_failure_of, Hs.
Qed.

Definition idle_kcm : kcm nat :=
  {| m_loading := false; m_statusMessage := ""; m_defaultImage := "";
     connected := true; containers := [];
     schema := {| SchemaClient.schema_model := SchemaClient.empty_schema;
                  SchemaClient.schema_loaded := false |};
     signals := []; calls := [] |}.

Definition no_replies : refresh_replies nat :=
  {| r_containers := []; r_schemaJson := ""; r_default_image := "" |}.

Definition no_json (_ : string) : option SchemaClient.json := None.

Lemma action_failure_reported_witness :
  m_statusMessage (deleteContainer no_json no_replies
                     {| success := false; error := "not found" |} "dev" idle_kcm)
  = "not found".
Proof.
  destruct (action_failure_reported no_json no_replies {| success := false; error := "not found" |}
              idle_kcm eq_refl) as (_ & Hd & _).
  destruct (Hd "dev") as (_ & Hm & _). exact Hm.
Defined.

(** X13: after a successful create the module emits [containerCreated]. If
    the client is connected, the refresh that follows runs to the end:
    loading is off, the status message is cleared, the container list is
    the daemon's, and the calls are the create, the container list, the
    schema (only while none is installed) and the config. If the client is
    not connected at that point, the refresh stops at once: loading stays
    on and the status message is the cannot-connect message. *)
Theorem createContainer_success {C} fromJson (rep : refresh_replies C) result name image options
    (st : kcm C) :
  success result = true -> name <> "" ->
  In ContainerCreated (signals (createContainer fromJson rep result name image options st)) /\
  (connected st = true ->
     m_loading (createContainer fromJson rep result name image options st) = false /\
     m_statusMessage (createContainer fromJson rep result name image options st) = "" /\
     containers (createContainer fromJson rep result name image options st) = r_containers rep /\
     calls (createContainer fromJson rep result name image options st) =
       (calls st ++ CreateCall name image options :: ListContainers ::
          (if SchemaClient.schema_loaded (schema st) then [] else [GetCreateSchema]) ++
          [GetConfig])%list) /\
  (connected st = false ->
     m_loading (createContainer fromJson rep result name image options st) = true /\
     m_statusMessage (createContainer fromJson rep result name image options st) = cannot_connect /\
     calls (createContainer fromJson rep result name image options st) =
       (calls st ++ [CreateCall name image options])%list).
Proof.
  intros Hs Hn. unfold createContainer. apply String.eqb_neq in Hn. rewrite Hn.
  unfold on_result. rewrite Hs. cbv zeta.
  set (st0 := call (CreateCall name image options)
                (setStatusMessage (setLoading st true) ("Creating container " ++ name ++ "…"))).
  destruct (action_prefix fromJson st (CreateCall name image options) ("Creating container " ++ name ++ "…"))
    as (Hc0 & Hcn0 & Hsc0 & Hl0 & _).
  fold st0 in Hc0, Hcn0, Hsc0, Hl0.
  set (st1 := emit ContainerCreated (setStatusMessage st0 "")).
  assert (Hc1 : calls st1 = calls st0) by (unfold st1; kcm_fields; reflexivity).
  assert (Hcn1 : connected st1 = connected st) by (unfold st1; kcm_fields; exact Hcn0).
  assert (Hsc1 : schema st1 = schema st) by (unfold st1; kcm_fields; exact Hsc0).
  assert (Hl1 : m_loading st1 = true) by (unfold st1; kcm_fields; exact Hl0).
  split; [|split].
  - destruct (refresh_signals fromJson rep st1) as [t Ht]. rewrite Ht.
    apply in_app_iff; left. unfold st1. kcm_fields. apply in_app_iff; right; left; reflexivity.
  - intros Hc. rewrite <- Hcn1 in Hc.
    destruct (refresh_connected fromJson rep st1 Hc) as (A & B & D & _ & E & _).
    split; [exact A|split; [exact B|split; [exact D|]]].
    rewrite E, Hc1, Hc0, Hsc1, <- app_assoc. reflexivity.
  - intros Hc. rewrite <- Hcn1 in Hc.
    destruct (refresh_disconnected fromJson rep st1 Hc) as (A & B & E & _).
    split; [rewrite A; exact Hl1|split; [exact B|]]. rewrite E, Hc1. exact Hc0.
Qed.

Lemma createContainer_success_witness :
  In ContainerCreated
    (signals (createContainer no_json no_replies {| success := true; error := "" |}
                "dev" "images:ubuntu/24.04" [] idle_kcm)).
Proof.
  apply (createContainer_success no_json no_replies {| success := true; error := "" |}
           "dev" "images:ubuntu/24.04" [] idle_kcm); [reflexivity|discriminate].
Defined.

(** X14: [refresh] with a disconnected client makes no daemon call and
    leaves the loading flag, the container list and the schema as they
    were, showing the cannot-connect message; with a connected client it
    asks for the containers, the schema only while none is installed, and
    the config, and ends with loading off, the status message cleared, the
    daemon's container list and default image shown. *)
Theorem refresh_outcome {C} fromJson (rep : refresh_replies C) (st : kcm C) :
  (connected st = false ->
     calls (refresh fromJson rep st) = calls st /\
     m_loading (refresh fromJson rep st) = m_loading st /\
     containers (refresh fromJson rep st) = containers st /\
     schema (refresh fromJson rep st) = schema st /\
     m_statusMessage (refresh fromJson rep st) = cannot_connect) /\
  (connected st = true ->
     calls (refresh fromJson rep st) =
       (calls st ++ ListContainers ::
          (if SchemaClient.schema_loaded (schema st) then [] else [GetCreateSchema]) ++
          [GetConfig])%list /\
     m_loading (refresh fromJson rep st) = false /\
     m_statusMessage (refresh fromJson rep st) = "" /\
     containers (refresh fromJson rep st) = r_containers rep /\
     m_defaultImage (refresh fromJson rep st) = r_default_image rep).
Proof.
  split.
  - intros Hc. destruct (refresh_disconnected fromJson rep st Hc) as (A & B & E & D & F & _).
    repeat split; assumption.
  - intros Hc. destruct (refresh_connected fromJson rep st Hc) as (A & B & D & E & F & _).
    repeat split; assumption.
Qed.

Lemma refresh_keeps_loaded_schema {C} fromJson (rep : refresh_replies C) (st : kcm C) :
  SchemaClient.schema_loaded (schema st) = true ->
  schema (refresh fromJson rep st) = schema st /\
  exists tail, calls (refresh fromJson rep st) = (calls st ++ tail)%list /\ ~ In GetCreateSchema tail.
Proof.
  intros Hl. destruct (connected st) eqn:Hc.
  - destruct (refresh_connected fromJson rep st Hc) as (_ & _ & _ & _ & E & S & _).
    rewrite Hl in E, S. split; [exact S|]. eexists; split; [exact E|].
    simpl; intuition discriminate.
  - destruct (refresh_disconnected fromJson rep st Hc) as (_ & _ & E & _ & S & _).
    split; [exact S|]. exists []. split; [rewrite app_nil_r; exact E| intros []].
Qed.

(** X15: the schema is fetched until one is installed and never after: a
    connected refresh that gets a non-empty reply parsing to a version
    above 0 installs that schema and marks it loaded; from then on, any
    sequence of refreshes keeps the installed schema and makes no
    [getCreateSchema] call. *)
Theorem schema_fetched_once {C} fromJson (st : kcm C) :
  (forall rep : refresh_replies C,
     connected st = true -> SchemaClient.schema_loaded (schema st) = false ->
     r_schemaJson rep <> "" ->
     (0 < SchemaClient.version (SchemaClient.parseCreateSchema fromJson (r_schemaJson rep)))%Z ->
     schema (refresh fromJson rep st) =
       {| SchemaClient.schema_model := SchemaClient.parseCreateSchema fromJson (r_schemaJson rep);
          SchemaClient.schema_loaded := true |}) /\
  (SchemaClient.schema_loaded (schema st) = true ->
   forall reps : list (refresh_replies C),
     schema (fold_left (fun s rep => refresh fromJson rep s) reps st) = schema st /\
     exists tail,
       calls (fold_left (fun s rep => refresh fromJson rep s) reps st) = (calls st ++ tail)%list /\
       ~ In GetCreateSchema tail).
Proof.
  split.
  - intros rep Hc Hl Hj Hv.
    destruct (refresh_connected fromJson rep st Hc) as (_ & _ & _ & _ & _ & S & _).
    rewrite S, Hl. unfold SchemaClient.refresh_schema. rewrite Hl.
    apply String.eqb_neq in Hj. rewrite Hj.
    apply Z.ltb_lt in Hv. rewrite Hv. reflexivity.
  - intros Hl reps. revert st Hl. induction reps as [|rep reps IH]; intros st Hl; simpl.
    + split; [reflexivity|]. exists []. split; [rewrite app_nil_r; reflexivity| intros []].
    + destruct (refresh_keeps_loaded_schema fromJson rep st Hl) as (S1 & t1 & C1 & N1).
      assert (Hl' : SchemaClient.schema_loaded (schema (refresh fromJson rep st)) = true)
        by (rewrite S1; exact Hl).
      destruct (IH _ Hl') as (S2 & t2 & C2 & N2).
      split; [congruence|]. exists (t1 ++ t2)%list. split.
      * rewrite C2, C1, app_assoc. reflexivity.
      * intros Hin. apply in_app_iff in Hin. tauto.
Qed.

End KcmFacts.
